(** * PakUni build scripts: a shallow embedding and its properties

    Two independent scripts are modelled:
    - [generate_logos.py]: CSV rows -> filtered dict -> sorted TypeScript
      mapping lines -> one output file;
    - [scripts/generate-icons.py]: fixed sequence of rasterisations,
      pastes and saves producing the launcher and store icons.

    Python values are modelled as the interpreter has them: a [str] is a
    sequence of Unicode code points, a [dict] keeps insertion order and
    overwrites on an equal key, [sorted] is a stable sort by [<]. *)

From Stdlib Require Import List NArith ZArith Bool Lia String Ascii.
From Stdlib Require Import Sorting.Sorted Sorting.Permutation.
From Stdlib Require Import Numbers.DecimalString Floats.SpecFloat.
Import ListNotations.

Set Implicit Arguments.

(* ================================================================== *)
(** ** Python primitives used by the scripts *)
(* ================================================================== *)

Module Py.

(** A Python [str]: code points, compared and indexed by code point. *)
Definition char := N.
Definition str := list char.

(** Source literals are ASCII; [u "..."] is the [str] of a literal. *)
Definition u (s : string) : str := map N_of_ascii (list_ascii_of_string s).

Definition char_eqb (a b : char) : bool := N.eqb a b.

Fixpoint str_eqb (a b : str) : bool :=
  match a, b with
  | [], [] => true
  | x :: a', y :: b' => char_eqb x y && str_eqb a' b'
  | _, _ => false
  end.

(** [a < b] on [str]: first differing code point decides, a proper
    prefix is smaller. *)
Fixpoint str_compare (a b : str) : comparison :=
  match a, b with
  | [], [] => Eq
  | [], _ :: _ => Lt
  | _ :: _, [] => Gt
  | x :: a', y :: b' =>
      match N.compare x y with
      | Eq => str_compare a' b'
      | c => c
      end
  end.

Definition str_ltb (a b : str) : bool :=
  match str_compare a b with Lt => true | _ => false end.

(** [<] on 2-tuples of [str], as [sorted(d.items())] compares them: the
    first components decide unless they are equal. *)
Definition pair_ltb (p q : str * str) : bool :=
  match str_compare (fst p) (fst q) with
  | Lt => true
  | Eq => str_ltb (snd p) (snd q)
  | Gt => false
  end.

(** [str.isspace] per code point (CPython's whitespace table). *)
Definition isspace (c : char) : bool :=
  ((9 <=? c) && (c <=? 13) || (28 <=? c) && (c <=? 32)
   || (c =? 133) || (c =? 160) || (c =? 5760)
   || (8192 <=? c) && (c <=? 8202)
   || (c =? 8232) || (c =? 8233) || (c =? 8239) || (c =? 8287)
   || (c =? 12288))%N.

Fixpoint lstrip (s : str) : str :=
  match s with
  | [] => []
  | c :: s' => if isspace c then lstrip s' else s
  end.

Definition rstrip (s : str) : str := rev (lstrip (rev s)).

(** [s.strip()] with no argument. *)
Definition strip (s : str) : str := rstrip (lstrip s).

Fixpoint startswith (p s : str) : bool :=
  match p, s with
  | [], _ => true
  | _ :: _, [] => false
  | a :: p', b :: s' => char_eqb a b && startswith p' s'
  end.

(** [p in s] for two [str]. *)
Fixpoint contains (p s : str) : bool :=
  startswith p s ||
  match s with
  | [] => false
  | _ :: s' => contains p s'
  end.

(** [sep.join(l)]. *)
Fixpoint join (sep : str) (l : list str) : str :=
  match l with
  | [] => []
  | [x] => x
  | x :: l' => x ++ sep ++ join sep l'
  end.

(** [str(n)] for a non-negative [int]. *)
Definition str_of_nat (n : nat) : str :=
  u (NilEmpty.string_of_uint (Nat.to_uint n)).

(** *** dict: insertion-ordered, assignment overwrites in place *)

Definition dict (V : Type) := list (str * V).

Fixpoint dict_get {V} (d : dict V) (k : str) : option V :=
  match d with
  | [] => None
  | (k', v) :: d' => if str_eqb k' k then Some v else dict_get d' k
  end.

(** [d[k] = v] *)
Fixpoint dict_set {V} (d : dict V) (k : str) (v : V) : dict V :=
  match d with
  | [] => [(k, v)]
  | (k', v') :: d' =>
      if str_eqb k' k then (k', v) :: d' else (k', v') :: dict_set d' k v
  end.

Definition keys {V} (d : dict V) : list str := map fst d.

(** *** sorted: stable, by [<] only *)

Section Sorted.
Variable A : Type.
Variable ltb : A -> A -> bool.

Fixpoint insert (x : A) (l : list A) : list A :=
  match l with
  | [] => [x]
  | y :: l' => if ltb y x then y :: insert x l' else x :: y :: l'
  end.

Fixpoint sorted (l : list A) : list A :=
  match l with
  | [] => []
  | x :: l' => insert x (sorted l')
  end.

(** The order a boolean [<] decides. *)
Definition ordered_by (x y : A) : Prop := ltb x y = true.
End Sorted.

(** *** list slices [l[i:j]] with Python's index normalisation *)

Definition clamp_index (len i : Z) : Z :=
  if (i <? 0)%Z then Z.max 0 (len + i) else Z.min len i.

Definition slice {A} (l : list A) (i j : Z) : list A :=
  let len := Z.of_nat (List.length l) in
  let lo := clamp_index len i in
  let hi := clamp_index len j in
  firstn (Z.to_nat (hi - lo)) (skipn (Z.to_nat lo) l).

(** *** re.sub with a one-character class pattern *)

Inductive class_item :=
| CRange (lo hi : char)
| CChar (c : char).

Record char_class := { negated : bool; items : list class_item }.

Definition item_matches (c : char) (i : class_item) : bool :=
  match i with
  | CRange lo hi => ((lo <=? c) && (c <=? hi))%N
  | CChar c' => char_eqb c c'
  end.

Definition class_matches (cc : char_class) (c : char) : bool :=
  xorb (negated cc) (existsb (item_matches c) (items cc)).

(** [re.sub(cc, repl, s)]: every character matched by the class is
    replaced, the others are copied. *)
Definition re_sub_class (cc : char_class) (repl s : str) : str :=
  flat_map (fun c => if class_matches cc c then repl else [c]) s.

End Py.

(* ================================================================== *)
(** ** generate_logos.py *)
(* ================================================================== *)

Module GenerateLogos.
Import Py.

(** What [csv.reader] yields for the file: one list of cells per line,
    [[]] for a blank line.  The first one is the header. *)
Definition csv_rows := list (list str).

(** A cell of a [DictReader] row: a string, or [None] (the [restval] of
    a row shorter than the header). *)
Definition cell := option str.

(** [dict(zip(fieldnames, row))] followed by the [restval] fill.  Cells
    beyond the header go under the key [None], which no string key
    reads; they are dropped here. *)
Fixpoint zip_row (fieldnames : list str) (row : list str) (d : dict cell)
  : dict cell :=
  match fieldnames, row with
  | [], _ => d
  | k :: ks, [] => zip_row ks [] (dict_set d k None)
  | k :: ks, v :: vs => zip_row ks vs (dict_set d k (Some v))
  end.

Definition is_blank (row : list str) : bool :=
  match row with [] => true | _ => false end.

(** [csv.DictReader(f)]: header from the first line, blank lines after
    it skipped, one dict per remaining line. *)
Definition DictReader (f : csv_rows) : list (dict cell) :=
  match f with
  | [] => []
  | fieldnames :: rest =>
      map (fun row => zip_row fieldnames row [])
          (filter (fun row => negb (is_blank row)) rest)
  end.

Inductive exn :=
| FileNotFoundError (path : str)
| KeyError (key : str)
| AttributeError.

Definition CSV_PATH : str := u "universities DATA.csv".
Definition OUT_PATH : str := u "university_logos_complete.ts".

Definition truthy (s : str) : bool :=
  match s with [] => false | _ => true end.

(** The filter of the loop body, on the stripped URL. *)
Definition url_ok (logo_url : str) : bool :=
  truthy logo_url
  && negb (contains (u "#/media") logo_url)
  && negb (contains (u "data:image") logo_url)
  && negb (contains (u "Not have") logo_url)
  && negb (contains (u "Dangerous") logo_url).

(** The two assignments at the top of the loop body. *)
Definition read_row (row : dict cell) : exn + (str * str) :=
  match dict_get row (u "university_name") with
  | None => inl (KeyError (u "university_name"))
  | Some None => inl AttributeError
  | Some (Some raw_name) =>
      let name := strip raw_name in
      match dict_get row (u "logo_url") with
      | None => inl (KeyError (u "logo_url"))
      | Some None => inr (name, [])
      | Some (Some raw_url) =>
          inr (name, if truthy raw_url then strip raw_url else [])
      end
  end.

(** [for row in reader: ...] *)
Fixpoint load_rows (rows : list (dict cell)) (universities : dict str)
  : exn + dict str :=
  match rows with
  | [] => inr universities
  | row :: rest =>
      match read_row row with
      | inl e => inl e
      | inr (name, logo_url) =>
          load_rows rest
            (if url_ok logo_url
             then dict_set universities name logo_url
             else universities)
      end
  end.

Definition ALNUM_COMPLEMENT : char_class :=
  {| negated := true;
     items := [CRange 97 122; CRange 65 90; CRange 48 57]%N |}.

Definition short_key (name : str) : str :=
  re_sub_class ALNUM_COMPLEMENT [] name.

(** f"  '{short_key}': '{url}'," *)
Definition entry_line (name url : str) : str :=
  u "  '" ++ short_key name ++ u "': '" ++ url ++ u "',".

Definition HEADER : list str :=
  [ u "export const UNIVERSITY_LOGO_MAP: Record<string, string> = {";
    u "  // All 257 Pakistani Universities - Logo URLs from Official Sources";
    u "  // Updated: January 2026";
    u "  // Auto-generated from CSV data";
    [] ].

Definition sorted_items (universities : dict str) : list (str * str) :=
  sorted pair_ltb universities.

Definition entries (universities : dict str) : list str :=
  map (fun '(name, url) => entry_line name url) (sorted_items universities).

Definition generate_lines (universities : dict str) : list str :=
  HEADER ++ entries universities ++ [u "};"].

Inductive event :=
| Stdout (s : str)
| FileWrite (path content : str).

Definition NL : str := [10%N].

(** The effects after the loop, in program order. *)
Definition report (universities : dict str) : list event :=
  let lines := generate_lines universities in
  [ Stdout (u "Total valid universities: "
           ++ str_of_nat (List.length universities));
    Stdout (NL ++ u "=== TypeScript Mapping ===" ++ NL);
    Stdout (NL ++ u "Generated " ++ str_of_nat (List.length universities)
           ++ u " mappings");
    Stdout (NL ++ u "First 5 entries:") ]
  ++ map Stdout (slice lines 5 10)
  ++ [ Stdout (NL ++ u "Last 5 entries:") ]
  ++ map Stdout (slice lines (-6) (-1))
  ++ [ FileWrite OUT_PATH (join NL lines);
       Stdout (NL ++ [9989%N] ++ u " Saved to university_logos_complete.ts") ].

(** The whole script.  [csv] is the file at [CSV_PATH]: [None] when it
    does not exist, otherwise the rows the reader yields when it decodes
    and parses the whole file ([main_reading] below adds the reader's
    own failures).  The result is the effects performed, in order, and
    the exception that ended the run, if any. *)
Definition main (csv : option csv_rows) : list event * option exn :=
  match csv with
  | None => ([], Some (FileNotFoundError CSV_PATH))
  | Some f =>
      match load_rows (DictReader f) [] with
      | inl e => ([], Some e)
      | inr universities => (report universities, None)
      end
  end.

(** The file written by a run, if any: the content of the last write to
    [path]. *)
Fixpoint written (path : str) (t : list event) : option str :=
  match t with
  | [] => None
  | FileWrite p c :: t' =>
      match written path t' with
      | Some c' => Some c'
      | None => if str_eqb p path then Some c else None
      end
  | Stdout _ :: t' => written path t'
  end.

(** *** The specification's vocabulary, for comparison with the code *)

(** An ASCII letter or digit. *)
Definition is_ascii_alnum (c : char) : bool :=
  ((65 <=? c) && (c <=? 90) || (97 <=? c) && (c <=? 122)
   || (48 <=? c) && (c <=? 57))%N.

(** The name with every character that is not an ASCII letter or digit
    removed. *)
Definition alnum_only (name : str) : str := filter is_ascii_alnum name.

(** [p] occurs in [s]. *)
Definition occurs_in (p s : str) : Prop := exists a b, s = a ++ p ++ b.

(** The URL field as the filter sees it: stripped, [None] read as empty. *)
Definition stripped_url (c : cell) : str :=
  match c with
  | None => []
  | Some raw => strip raw
  end.

(** A row's URL is disqualified. *)
Definition disqualified (logo_url : str) : Prop :=
  logo_url = []
  \/ occurs_in (u "#/media") logo_url
  \/ occurs_in (u "data:image") logo_url
  \/ occurs_in (u "Not have") logo_url
  \/ occurs_in (u "Dangerous") logo_url.

(** Items in increasing order of name. *)
Definition name_lt (p q : str * str) : Prop :=
  str_compare (fst p) (fst q) = Lt.

(** A row of the reader is retained under [name] with [logo_url]. *)
Definition retained (row : dict cell) (name logo_url : str) : Prop :=
  read_row row = inr (name, logo_url) /\ url_ok logo_url = true.

(** Modelled from the spec: the downstream mapping structure built from
    the generated entries (the consumer of the generated file is not
    part of the sources); a later entry with an equal key overwrites an
    earlier one. *)
Definition downstream_mapping (universities : dict str) : dict str :=
  fold_left (fun m '(name, url) => dict_set m (short_key name) url)
            (sorted_items universities) [].

(** *** A small input used to exercise the definitions *)

Definition sample_csv : csv_rows :=
  [ [u "university_name"; u "logo_url"];
    [u "Quaid-i-Azam University"; u "https://example.com/logo.png"];
    [u "X University"; u "data:image/png;base64,AAAA"];
    [];
    [u " Aga Khan "; u " https://a.example/k.png "];
    [u "AB"; u "https://c.example/ab2.png"];
    [u "A.B"; u "https://c.example/ab1.png"];
    [u "?! "; u "https://d.example/dangerous.png"];
    [u "No Logo"] ].

Definition sample_row (i : nat) : dict cell := nth i (DictReader sample_csv) [].

Definition sample_universities : dict str :=
  [ (u "Quaid-i-Azam University", u "https://example.com/logo.png");
    (u "Aga Khan", u "https://a.example/k.png");
    (u "AB", u "https://c.example/ab2.png");
    (u "A.B", u "https://c.example/ab1.png");
    (u "?!", u "https://d.example/dangerous.png") ].

(** *** Vocabulary for the properties beyond the specification *)

(** The (name, URL) pairs the loop assigns, in file order. *)
Definition kept_pairs (rows : list (dict cell)) : list (str * str) :=
  flat_map (fun row =>
              match read_row row with
              | inr (name, logo_url) =>
                  if url_ok logo_url then [(name, logo_url)] else []
              | inl _ => []
              end) rows.

(** The header the script expects, name first. *)
Definition STANDARD_HEADER : list str := [u "university_name"; u "logo_url"].


Definition str_eq_dec : forall a b : str, {a = b} + {a <> b} :=
  list_eq_dec N.eq_dec.

(** The number of line breaks in a text. *)
Definition newlines (s : str) : nat := count_occ N.eq_dec s 10%N.

(** *** The reader's own failures

    [csv.reader] is a lazy iterator over the decoded file: it yields
    rows one at a time and may raise instead of yielding the next one
    ([_csv.Error], for instance on a field over the size limit, or
    [UnicodeDecodeError] on a byte that is not UTF-8).  The loop body
    runs on each row before the next one is requested. *)
Inductive reader_error :=
| CsvError
| UnicodeDecodeError.

Record reader_output := {
  yielded : csv_rows;
  reader_failure : option reader_error
}.

Inductive failure :=
| RowError (e : exn)
| ReaderError (e : reader_error).

(** The whole script over a reader that may raise: the rows yielded are
    processed in order, a row's exception ends the run before the
    reader is asked for more, and the reader's failure, if any, ends it
    once the rows before it are processed.  Nothing is printed or
    written before the loop ends. *)
Definition main_reading (file : option reader_output)
  : list event * option failure :=
  match file with
  | None => ([], Some (RowError (FileNotFoundError CSV_PATH)))
  | Some r =>
      match load_rows (DictReader (yielded r)) [] with
      | inl e => ([], Some (RowError e))
      | inr universities =>
          match reader_failure r with
          | Some e => ([], Some (ReaderError e))
          | None => (report universities, None)
          end
      end
  end.

End GenerateLogos.

(* ================================================================== *)
(** ** scripts/generate-icons.py *)
(* ================================================================== *)

Module GenerateIcons.

Local Open Scope string_scope.
Local Open Scope Z_scope.

(** *** Paths

    Every path of the script is [os.path.join(BASE_DIR, ...)]; a path is
    modelled by its components below [BASE_DIR]. *)
Definition path := list string.

Definition path_eq_dec : forall p q : path, {p = q} + {p <> q} :=
  list_eq_dec string_dec.

Definition path_eqb (p q : path) : bool :=
  if path_eq_dec p q then true else false.

Definition BASE_DIR : path := [].

(** [os.path.join(p, a, b, ...)] *)
Definition path_join (p : path) (parts : list string) : path := (p ++ parts)%list.

Definition dirname (p : path) : path := removelast p.

Definition SVG_DIR := path_join BASE_DIR ["src"; "assets"; "svg"].
Definition IMG_DIR := path_join BASE_DIR ["src"; "assets"; "images"].
Definition ANDROID_RES :=
  path_join BASE_DIR ["android"; "app"; "src"; "main"; "res"].
Definition STORE_DIR := path_join BASE_DIR ["store-listing"].

(** *** Images (Pillow)

    A pixel is the list of its band values: one for "L", three for
    "RGB", four for "RGBA". *)
Inductive mode := L | RGB | RGBA.

Definition pixel := list Z.

Record image := {
  im_mode : mode;
  im_width : Z;
  im_height : Z;
  im_px : Z -> Z -> pixel
}.

Definition in_bounds (im : image) (x y : Z) : bool :=
  (0 <=? x) && (x <? im_width im) && (0 <=? y) && (y <? im_height im).

(** [Image.new(mode, size, color)] *)
Definition Image_new (m : mode) (size : Z * Z) (color : pixel) : image :=
  {| im_mode := m; im_width := fst size; im_height := snd size;
     im_px := fun _ _ => color |}.

(** [im.convert("RGBA")] *)
Definition convert_RGBA (im : image) : image :=
  match im_mode im with
  | RGBA => im
  | RGB =>
      {| im_mode := RGBA; im_width := im_width im; im_height := im_height im;
         im_px := fun x y => (firstn 3 (im_px im x y) ++ [255])%list |}
  | L =>
      {| im_mode := RGBA; im_width := im_width im; im_height := im_height im;
         im_px := fun x y => let v := nth 0 (im_px im x y) 0 in
                             [v; v; v; 255] |}
  end.

(** Pillow's 8-bit blend: [DIV255] and [BLEND8] of its paste code. *)
Definition DIV255 (a : Z) : Z :=
  let tmp := a + 128 in
  Z.shiftr (Z.shiftr tmp 8 + tmp) 8.

Definition BLEND8 (mask in1 in2 : Z) : Z :=
  DIV255 (in1 * (255 - mask) + in2 * mask).

(** The opacity a mask image gives at a pixel: the value of an "L"
    mask, the alpha band of an "RGBA" one. *)
Definition mask_value (mask : image) (x y : Z) : Z :=
  match im_mode mask with
  | L => nth 0 (im_px mask x y) 0
  | RGBA => nth 3 (im_px mask x y) 0
  | RGB => 255
  end.

(** [paste] raises [ValueError] unless the mask can carry opacity and
    has the size of the pasted image. *)
Definition paste_ok (src mask : image) : bool :=
  match im_mode mask with
  | RGB => false
  | _ => (im_width mask =? im_width src) && (im_height mask =? im_height src)
  end.

Fixpoint blend_bands (m : Z) (dst src : pixel) : pixel :=
  match dst, src with
  | d :: dst', s :: src' => BLEND8 m d s :: blend_bands m dst' src'
  | _, _ => dst
  end.

(** [dst.paste(src, (x0, y0), mask)]: inside the box, each band of the
    destination is blended with the source by the mask's opacity. *)
Definition paste (dst src : image) (box : Z * Z) (mask : image) : image :=
  let '(x0, y0) := box in
  {| im_mode := im_mode dst;
     im_width := im_width dst;
     im_height := im_height dst;
     im_px := fun x y =>
       if in_bounds dst x y && in_bounds src (x - x0) (y - y0)
       then blend_bands (mask_value mask (x - x0) (y - y0))
                        (im_px dst x y) (im_px src (x - x0) (y - y0))
       else im_px dst x y |}.

(** *** binary64 arithmetic of [int(size * 0.78)] *)

Definition float_of_int (n : Z) : spec_float :=
  binary_normalize 53 1024 n 0 false.

(** The double nearest to 0.78: 0x1.8f5c28f5c28f6p-1. *)
Definition F0_78 : spec_float := S754_finite false 7025615418697974 (-53).

(** [int(f)]: truncation towards zero. *)
Definition int_of_float (f : spec_float) : Z :=
  match f with
  | S754_finite s m e =>
      let v := if 0 <=? e then Z.pos m * 2 ^ e else Z.pos m / 2 ^ (- e) in
      if s then - v else v
  | _ => 0
  end.

Definition inner_size_of (size : Z) : Z :=
  int_of_float (SFmul 53 1024 (float_of_int size) F0_78).

Definition MIPMAP_SIZES : list (string * Z) :=
  [ ("mipmap-mdpi", 48);
    ("mipmap-hdpi", 72);
    ("mipmap-xhdpi", 96);
    ("mipmap-xxhdpi", 144);
    ("mipmap-xxxhdpi", 192) ].

Definition WHITE_RGBA : pixel := [255; 255; 255; 255].
Definition WHITE_RGB : pixel := [255; 255; 255].
Definition CLEAR_RGBA : pixel := [0; 0; 0; 0].

(** *** The script, over the rendering back ends *)

Section Backend.

(** A parsed SVG document. *)
Variable svg : Type.
(** cairosvg: pixel [(x, y)] of the [w] x [h] RGBA rendering. *)
Variable rasterize : svg -> Z -> Z -> Z -> Z -> pixel.
(** Pillow: pixel [(x, y)] of an image resampled to [w] x [h] with the
    LANCZOS filter. *)
Variable lanczos : image -> Z -> Z -> Z -> Z -> pixel.
(** Pillow: whether [ImageDraw.ellipse(box)] fills pixel [(x, y)]. *)
Variable ellipse_fill : Z * Z * Z * Z -> Z -> Z -> bool.

Inductive file :=
| FSvg (s : svg)
| FPng (im : image).

Inductive event :=
| Makedirs (p : path)
| Wrote (p : path) (im : image)
| Removed (p : path).

Record world := {
  fs : list (path * file);
  log : list event
}.

Inductive exn :=
| FileNotFoundError (p : path)
| ParseError (p : path)
| UnidentifiedImageError (p : path)
| ValueError.

Inductive result (A : Type) :=
| Ok (a : A)
| Raised (e : exn).
Arguments Ok {A} a.
Arguments Raised {A} e.

Definition M (A : Type) : Type := world -> result A * world.

Definition ret {A} (a : A) : M A := fun w => (Ok a, w).
Definition raise {A} (e : exn) : M A := fun w => (Raised e, w).
Definition bind {A B} (m : M A) (k : A -> M B) : M B :=
  fun w => match m w with
           | (Ok a, w') => k a w'
           | (Raised e, w') => (Raised e, w')
           end.

Notation "x <- m ;; k" := (bind m (fun x => k))
  (at level 61, m at next level, right associativity).
Notation "m ;; k" := (bind m (fun _ => k))
  (at level 61, right associativity).

Fixpoint fs_read (files : list (path * file)) (p : path) : option file :=
  match files with
  | [] => None
  | (q, f) :: rest => if path_eqb q p then Some f else fs_read rest p
  end.

Definition fs_remove (files : list (path * file)) (p : path)
  : list (path * file) :=
  filter (fun e => negb (path_eqb (fst e) p)) files.

Definition emit (e : event) : M unit :=
  fun w => (Ok tt, {| fs := fs w; log := (log w ++ [e])%list |}).

Definition write_png (p : path) (im : image) : M unit :=
  fun w => (Ok tt, {| fs := (p, FPng im) :: fs_remove (fs w) p;
                      log := (log w ++ [Wrote p im])%list |}).

(** [os.makedirs(p, exist_ok=True)] *)
Definition makedirs (p : path) : M unit := emit (Makedirs p).

(** [cairosvg.svg2png(url=..., write_to=..., output_width=...,
    output_height=...)] *)
Definition svg2png (url write_to : path) (w h : Z) : M unit :=
  fun wd =>
    match fs_read (fs wd) url with
    | None => (Raised (FileNotFoundError url), wd)
    | Some (FPng _) => (Raised (ParseError url), wd)
    | Some (FSvg s) =>
        write_png write_to
          {| im_mode := RGBA; im_width := w; im_height := h;
             im_px := rasterize s w h |} wd
    end.

(** [Image.open(p)] *)
Definition Image_open (p : path) : M image :=
  fun wd =>
    match fs_read (fs wd) p with
    | None => (Raised (FileNotFoundError p), wd)
    | Some (FSvg _) => (Raised (UnidentifiedImageError p), wd)
    | Some (FPng im) => (Ok im, wd)
    end.

(** [im.save(p)] *)
Definition save (im : image) (p : path) : M unit := write_png p im.

(** [dst.paste(src, box, mask)] as a statement. *)
Definition do_paste (dst src : image) (box : Z * Z) (mask : image)
  : M image :=
  if paste_ok src mask then ret (paste dst src box mask)
  else raise ValueError.

(** [im.resize((w, h), Image.LANCZOS)] *)
Definition resize (im : image) (size : Z * Z) : image :=
  {| im_mode := im_mode im; im_width := fst size; im_height := snd size;
     im_px := lanczos im (fst size) (snd size) |}.

(** [ImageDraw.Draw(im).ellipse(box, fill=v)] *)
Definition draw_ellipse (im : image) (box : Z * Z * Z * Z) (fill : pixel)
  : image :=
  {| im_mode := im_mode im; im_width := im_width im;
     im_height := im_height im;
     im_px := fun x y =>
       if in_bounds im x y && ellipse_fill box x y then fill
       else im_px im x y |}.

(** [if os.path.exists(p): os.remove(p)] *)
Definition remove_if_exists (p : path) : M unit :=
  fun wd =>
    match fs_read (fs wd) p with
    | None => (Ok tt, wd)
    | Some _ => (Ok tt, {| fs := fs_remove (fs wd) p;
                           log := (log wd ++ [Removed p])%list |})
    end.

Fixpoint for_each {A} (l : list A) (body : A -> M unit) : M unit :=
  match l with
  | [] => ret tt
  | x :: l' => body x ;; for_each l' body
  end.

Definition ICON_SVG := path_join SVG_DIR ["pakuni-icon.svg"].
Definition LOGO_SVG := path_join SVG_DIR ["pakuni-logo.svg"].
Definition TEMP_ICON := path_join IMG_DIR ["_temp_icon.png"].
Definition TEMP_MIPMAP := path_join IMG_DIR ["_temp_mipmap.png"].

(** Section 3 of the script: the round 512 x 512 icon. *)
Definition round_icon_section : M image :=
  svg2png ICON_SVG TEMP_ICON 400 400 ;;
  opened <- Image_open TEMP_ICON ;;
  let icon_fg := convert_RGBA opened in
  let canvas := Image_new RGBA (512, 512) WHITE_RGBA in
  let offset_x := (512 - 400) / 2 in
  let offset_y := (512 - 400) / 2 in
  canvas <- do_paste canvas icon_fg (offset_x, offset_y) icon_fg ;;
  let mask := Image_new L (512, 512) [0] in
  let mask := draw_ellipse mask (0, 0, 512, 512) [255] in
  let round_icon := Image_new RGBA (512, 512) CLEAR_RGBA in
  round_icon <- do_paste round_icon canvas (0, 0) mask ;;
  save round_icon (path_join IMG_DIR ["pakuni-icon-round.png"]) ;;
  ret icon_fg.

(** Section 4: the Play Store icon, from section 3's [icon_fg]. *)
Definition store_icon_section (icon_fg : image) : M unit :=
  let store_icon := Image_new RGB (512, 512) WHITE_RGB in
  let icon_for_store := resize icon_fg (420, 420) in
  let store_offset := (512 - 420) / 2 in
  store_icon <- do_paste store_icon icon_for_store
                  (store_offset, store_offset) icon_for_store ;;
  save store_icon (path_join STORE_DIR ["icon-512.png"]).

(** Section 5: the body of the loop over [MIPMAP_SIZES]. *)
Definition mipmap_body (entry : string * Z) : M unit :=
  let '(folder, size) := entry in
  let out_dir := path_join ANDROID_RES [folder] in
  makedirs out_dir ;;
  let bg := Image_new RGB (size, size) WHITE_RGB in
  let inner_size := inner_size_of size in
  svg2png ICON_SVG TEMP_MIPMAP inner_size inner_size ;;
  opened <- Image_open TEMP_MIPMAP ;;
  let fg := convert_RGBA opened in
  let offset := (size - inner_size) / 2 in
  bg <- do_paste bg fg (offset, offset) fg ;;
  save bg (path_join out_dir ["ic_launcher.png"]) ;;
  let round_canvas := Image_new RGBA (size, size) WHITE_RGBA in
  round_canvas <- do_paste round_canvas fg (offset, offset) fg ;;
  let round_mask := Image_new L (size, size) [0] in
  let round_mask := draw_ellipse round_mask (0, 0, size, size) [255] in
  let round_result := Image_new RGBA (size, size) CLEAR_RGBA in
  round_result <- do_paste round_result round_canvas (0, 0) round_mask ;;
  save round_result (path_join out_dir ["ic_launcher_round.png"]).

(** The whole script (its calls of [print] left out). *)
Definition script : M unit :=
  makedirs IMG_DIR ;;
  makedirs STORE_DIR ;;
  svg2png LOGO_SVG (path_join IMG_DIR ["pakuni-logo.png"]) 400 520 ;;
  svg2png ICON_SVG (path_join IMG_DIR ["pakuni-icon.png"]) 512 512 ;;
  icon_fg <- round_icon_section ;;
  store_icon_section icon_fg ;;
  for_each MIPMAP_SIZES mipmap_body ;;
  for_each [TEMP_ICON; TEMP_MIPMAP] remove_if_exists.

(** The files the script reads from the source tree. *)
Definition initial_world (logo icon : option svg) : world :=
  let add p o rest :=
    match o with Some s => (p, FSvg s) :: rest | None => rest end in
  {| fs := add LOGO_SVG logo (add ICON_SVG icon []); log := [] |}.

Definition run (logo icon : option svg) : result unit * world :=
  script (initial_world logo icon).

(** The images the script names, as functions of the icon document. *)
Definition render (s : svg) (w h : Z) : image :=
  {| im_mode := RGBA; im_width := w; im_height := h;
     im_px := rasterize s w h |}.

Definition icon_fg (icon : svg) : image := convert_RGBA (render icon 400 400).

Definition icon_for_store (icon : svg) : image :=
  resize (icon_fg icon) (420, 420).

Definition store_icon (icon : svg) : image :=
  paste (Image_new RGB (512, 512) WHITE_RGB) (icon_for_store icon)
        (46, 46) (icon_for_store icon).

Definition round_mask (size : Z) : image :=
  draw_ellipse (Image_new L (size, size) [0]) (0, 0, size, size) [255].

(** The loop body's values for a tier of [size]. *)
Definition tier_offset (size : Z) : Z := (size - inner_size_of size) / 2.

Definition tier_fg (icon : svg) (size : Z) : image :=
  convert_RGBA (render icon (inner_size_of size) (inner_size_of size)).

Definition tier_square (icon : svg) (size : Z) : image :=
  paste (Image_new RGB (size, size) WHITE_RGB) (tier_fg icon size)
        (tier_offset size, tier_offset size) (tier_fg icon size).

Definition tier_round_canvas (icon : svg) (size : Z) : image :=
  paste (Image_new RGBA (size, size) WHITE_RGBA) (tier_fg icon size)
        (tier_offset size, tier_offset size) (tier_fg icon size).

Definition tier_round (icon : svg) (size : Z) : image :=
  paste (Image_new RGBA (size, size) CLEAR_RGBA)
        (tier_round_canvas icon size) (0, 0) (round_mask size).

(** The round variant as the specification words it: the rendered
    icon composited onto a transparent canvas, then masked by the
    circle. *)
Definition claimed_round (icon : svg) (size : Z) : image :=
  paste (Image_new RGBA (size, size) CLEAR_RGBA)
        (paste (Image_new RGBA (size, size) CLEAR_RGBA) (tier_fg icon size)
               (tier_offset size, tier_offset size) (tier_fg icon size))
        (0, 0) (round_mask size).

(** The file-write events of a log that go into directory [dir]. *)
Definition wrote_into (dir : path) (e : event) : bool :=
  match e with
  | Wrote p _ => path_eqb (dirname p) dir
  | _ => false
  end.

End Backend.

Arguments Raised {A} e.
Arguments FPng {svg} im.

(** Pixels as the back ends deliver them: four bands of one byte. *)
Definition is_byte (v : Z) : bool := (0 <=? v) && (v <=? 255).

Definition rgba_bytes (p : pixel) : bool :=
  match p with
  | [r; g; b; a] => is_byte r && is_byte g && is_byte b && is_byte a
  | _ => false
  end.

(** *** A small back end used to exercise the definitions

    A document paints one colour on a checkerboard of painted and empty
    pixels; the ellipse is the closed disc inscribed in its box. *)
Inductive sample_svg := SAMPLE_ICON | SAMPLE_LOGO.

Definition sample_colour (s : sample_svg) : pixel :=
  match s with
  | SAMPLE_ICON => [0; 104; 71; 255]
  | SAMPLE_LOGO => [1; 65; 28; 128]
  end.

Definition sample_rasterize (s : sample_svg) (w h x y : Z) : pixel :=
  if Z.even (x + y) then sample_colour s else CLEAR_RGBA.

Definition sample_lanczos (im : image) (w h x y : Z) : pixel :=
  im_px im (x * im_width im / w) (y * im_height im / h).

Definition sample_ellipse (box : Z * Z * Z * Z) (x y : Z) : bool :=
  let '(x0, y0, x1, y1) := box in
  let w := x1 - x0 in
  let h := y1 - y0 in
  let dx := 2 * (x - x0) + 1 - w in
  let dy := 2 * (y - y0) + 1 - h in
  dx * dx * h * h + dy * dy * w * w <=? w * w * h * h.


(** *** Vocabulary for the properties beyond the specification *)

(** Section 3's images, as functions of the icon document. *)
Definition round_canvas_512 (svg : Type)
    (rasterize : svg -> Z -> Z -> Z -> Z -> pixel) (icon : svg) : image :=
  paste (Image_new RGBA (512, 512) WHITE_RGBA) (icon_fg rasterize icon)
        (56, 56) (icon_fg rasterize icon).

Definition round_icon_512 (svg : Type)
    (rasterize : svg -> Z -> Z -> Z -> Z -> pixel)
    (ellipse_fill : Z * Z * Z * Z -> Z -> Z -> bool) (icon : svg) : image :=
  paste (Image_new RGBA (512, 512) CLEAR_RGBA)
        (round_canvas_512 rasterize icon) (0, 0) (round_mask ellipse_fill 512).

(** The files the script is meant to leave behind. *)
Definition OUTPUT_FILES : list path :=
  [ path_join IMG_DIR ["pakuni-logo.png"];
    path_join IMG_DIR ["pakuni-icon.png"];
    path_join IMG_DIR ["pakuni-icon-round.png"];
    path_join STORE_DIR ["icon-512.png"] ]
  ++ flat_map (fun '(folder, _) =>
                 [ path_join ANDROID_RES [folder; "ic_launcher.png"];
                   path_join ANDROID_RES [folder; "ic_launcher_round.png"] ])
              MIPMAP_SIZES.

(** [int(size * 0.78)] agrees with the floor of 78 * size / 100 on every
    size from 0 to [bound]. *)
Definition inner_size_checked (bound : nat) : bool :=
  forallb (fun n => let size := Z.of_nat n in
                    inner_size_of size =? 78 * size / 100)
          (seq 0 (S bound)).

(** The opacity Pillow leaves where a pixel of opacity [a] is pasted,
    with itself as mask, over an opaque pixel. *)
Definition pasted_alpha (a : Z) : Z := BLEND8 a 255 a.

End GenerateIcons.

(* ================================================================== *)
(** ** Facts about the Python primitives *)
(* ================================================================== *)

Unset Implicit Arguments.

Module PyFacts.
Import Py.

(** *** Equality and order on [str] *)

Lemma str_eqb_eq (a b : str) : str_eqb a b = true <-> a = b.
Proof.
  revert b; induction a as [|x a IH]; intros [|y b]; simpl;
    try (split; [discriminate | congruence]).
  - tauto.
  - unfold char_eqb. rewrite andb_true_iff, N.eqb_eq, IH.
    split; [intros [-> ->]; reflexivity | intros [= -> ->]; auto].
Qed.

Lemma str_eqb_refl (a : str) : str_eqb a a = true.
Proof. now apply str_eqb_eq. Qed.

Lemma str_eqb_neq (a b : str) : str_eqb a b = false <-> a <> b.
Proof.
  rewrite <- str_eqb_eq. destruct (str_eqb a b); split; congruence.
Qed.

Lemma str_compare_eq (a b : str) : str_compare a b = Eq <-> a = b.
Proof.
  revert b; induction a as [|x a IH]; intros [|y b]; simpl;
    try (split; [discriminate | congruence]).
  - tauto.
  - destruct (N.compare_spec x y) as [->|Hlt|Hgt].
    + rewrite IH. split; [intros ->; reflexivity | intros [= ->]; auto].
    + split; [discriminate | intros [= -> _]; lia].
    + split; [discriminate | intros [= -> _]; lia].
Qed.

Lemma str_compare_refl (a : str) : str_compare a a = Eq.
Proof. now apply str_compare_eq. Qed.

Lemma str_compare_antisym (a b : str) :
  str_compare b a = CompOpp (str_compare a b).
Proof.
  revert b; induction a as [|x a IH]; intros [|y b]; simpl; auto.
  rewrite (N.compare_antisym x y).
  destruct (N.compare x y); simpl; auto.
Qed.

Lemma str_compare_trans (a b c : str) :
  str_compare a b = Lt -> str_compare b c = Lt -> str_compare a c = Lt.
Proof.
  revert b c; induction a as [|x a IH]; intros [|y b] [|z c]; simpl;
    try congruence.
  destruct (N.compare_spec x y) as [->|Hxy|Hxy]; try discriminate.
  - destruct (N.compare z y) eqn:E; rewrite (N.compare_antisym z y), E;
      simpl; try congruence. apply IH.
  - intros _. destruct (N.compare_spec y z) as [->|Hyz|Hyz];
      try discriminate; intros _.
    + now apply N.compare_lt_iff in Hxy as ->.
    + assert (H : (x < z)%N) by lia. now apply N.compare_lt_iff in H as ->.
Qed.

Lemma str_ltb_lt (a b : str) : str_ltb a b = true <-> str_compare a b = Lt.
Proof. unfold str_ltb. destruct (str_compare a b); split; congruence. Qed.

Lemma pair_ltb_distinct (p q : str * str) :
  fst p <> fst q -> pair_ltb p q = false -> pair_ltb q p = true.
Proof.
  unfold pair_ltb. intros Hne.
  rewrite (str_compare_antisym (fst p) (fst q)).
  destruct (str_compare (fst p) (fst q)) eqn:E; simpl; try congruence.
  apply str_compare_eq in E. contradiction.
Qed.

(** *** Substrings *)

Lemma startswith_spec (p s : str) :
  startswith p s = true <-> exists b, s = p ++ b.
Proof.
  revert s; induction p as [|a p IH]; intros s; simpl.
  - split; eauto.
  - destruct s as [|c s].
    + split; [discriminate | intros [b Hb]; discriminate].
    + unfold char_eqb. rewrite andb_true_iff, N.eqb_eq, IH. split.
      * intros [-> [b ->]]. now exists b.
      * intros [b [= -> ->]]. split; eauto.
Qed.

Lemma contains_spec (p s : str) :
  contains p s = true <-> exists a b, s = a ++ p ++ b.
Proof.
  induction s as [|c s IH]; simpl.
  - rewrite orb_false_r, startswith_spec. split.
    + intros [b Hb]. now exists [], b.
    + intros [a [b Hab]]. destruct a; simpl in Hab.
      * now exists b.
      * discriminate.
  - rewrite orb_true_iff, startswith_spec, IH. split.
    + intros [[b Hb] | [a [b ->]]].
      * now exists [], b.
      * now exists (c :: a), b.
    + intros [[|c' a] [b Hab]]; simpl in Hab.
      * left. now exists b.
      * right. injection Hab as -> ->. now exists a, b.
Qed.

Lemma contains_false (p s : str) :
  contains p s = false <-> ~ exists a b, s = a ++ p ++ b.
Proof.
  rewrite <- contains_spec. destruct (contains p s); split; congruence.
Qed.

(** *** strip *)

Lemma lstrip_split (s : str) :
  exists a, s = a ++ lstrip s /\ forallb isspace a = true.
Proof.
  induction s as [|c s [a [Ha Hs]]]; simpl.
  - now exists [].
  - destruct (isspace c) eqn:E.
    + exists (c :: a). simpl. rewrite E, Hs. split; [now f_equal | reflexivity].
    + now exists [].
Qed.

Lemma strip_split (s : str) :
  exists a b, s = a ++ strip s ++ b
              /\ forallb isspace a = true /\ forallb isspace b = true.
Proof.
  unfold strip, rstrip.
  destruct (lstrip_split s) as [a [Ha Hsa]].
  destruct (lstrip_split (rev (lstrip s))) as [b [Hb Hsb]].
  exists a, (rev b). repeat split; auto.
  - rewrite Ha at 1. f_equal.
    rewrite <- (rev_involutive (lstrip s)), Hb at 1.
    now rewrite rev_app_distr.
  - rewrite forallb_forall in *. intros x Hx. apply Hsb. now apply in_rev.
Qed.

Lemma strip_nil : strip [] = [].
Proof. reflexivity. Qed.

(** *** dict *)

Lemma dict_get_set_same {V} (d : dict V) k v :
  dict_get (dict_set d k v) k = Some v.
Proof.
  induction d as [|[k' v'] d IH]; simpl.
  - now rewrite str_eqb_refl.
  - destruct (str_eqb k' k) eqn:E; simpl; now rewrite E.
Qed.

Lemma dict_get_set_other {V} (d : dict V) k k' v :
  k <> k' -> dict_get (dict_set d k v) k' = dict_get d k'.
Proof.
  intros Hne. induction d as [|[k0 v0] d IH]; simpl.
  - assert (E : str_eqb k k' = false) by now apply str_eqb_neq.
    now rewrite E.
  - destruct (str_eqb k0 k) eqn:E; simpl.
    + apply str_eqb_eq in E as ->.
      assert (E : str_eqb k k' = false) by now apply str_eqb_neq.
      now rewrite E.
    + now rewrite IH.
Qed.

Lemma keys_set {V} (d : dict V) k v :
  forall k', In k' (keys (dict_set d k v)) <-> k' = k \/ In k' (keys d).
Proof.
  intros k'. induction d as [|[k0 v0] d IH]; simpl.
  - intuition.
  - destruct (str_eqb k0 k) eqn:E; simpl.
    + apply str_eqb_eq in E as ->. intuition.
    + unfold keys in IH. rewrite IH. intuition.
Qed.

Lemma keys_set_NoDup {V} (d : dict V) k v :
  NoDup (keys d) -> NoDup (keys (dict_set d k v)).
Proof.
  induction d as [|[k0 v0] d IH]; simpl; intros Hnd.
  - constructor; [intros [] | constructor].
  - inversion Hnd as [|? ? Hnotin Hnd']; subst.
    destruct (str_eqb k0 k) eqn:E; simpl.
    + now constructor.
    + constructor; [|now apply IH].
      intros Hin. apply (keys_set d k v) in Hin as [->|Hin]; [|contradiction].
      now rewrite str_eqb_refl in E.
Qed.

Lemma length_set_new {V} (d : dict V) k v :
  dict_get d k = None -> List.length (dict_set d k v) = S (List.length d).
Proof.
  induction d as [|[k0 v0] d IH]; simpl; auto.
  destruct (str_eqb k0 k); [discriminate|]. simpl. auto.
Qed.


Lemma In_dict_get {V} (d : dict V) k v :
  NoDup (keys d) -> In (k, v) d -> dict_get d k = Some v.
Proof.
  induction d as [|[k0 v0] d IH]; simpl; [intros _ []|].
  intros Hnd [[= -> ->]|Hin].
  - now rewrite str_eqb_refl.
  - inversion Hnd as [|? ? Hnotin Hnd']; subst.
    destruct (str_eqb k0 k) eqn:E; [|auto].
    apply str_eqb_eq in E as ->. exfalso. apply Hnotin.
    change k with (fst (k, v)). now apply in_map.
Qed.

Lemma dict_get_None {V} (d : dict V) k :
  dict_get d k = None <-> ~ In k (keys d).
Proof.
  induction d as [|[k0 v0] d IH]; simpl.
  - tauto.
  - destruct (str_eqb k0 k) eqn:E.
    + apply str_eqb_eq in E as ->. split; [discriminate | tauto].
    + apply str_eqb_neq in E. rewrite IH. tauto.
Qed.

(** *** sorted *)

Section SortedFacts.
Variable A : Type.
Variable ltb : A -> A -> bool.

Lemma insert_perm (x : A) (l : list A) :
  Permutation (insert ltb x l) (x :: l).
Proof.
  induction l as [|y l IH]; simpl; auto.
  destruct (ltb y x); auto.
  rewrite IH. apply perm_swap.
Qed.

Lemma sorted_perm (l : list A) : Permutation (sorted ltb l) l.
Proof.
  induction l as [|x l IH]; simpl; auto.
  rewrite insert_perm. now constructor.
Qed.

(** On a list whose elements are pairwise comparable one way or the
    other under a transitive [ltb], the result is strictly
    increasing. *)
Hypothesis ltb_trans :
  forall x y z, ltb x y = true -> ltb y z = true -> ltb x z = true.

Local Abbreviation lt := (ordered_by ltb).

Lemma insert_sorted (x : A) (l : list A) :
  (forall y, In y l -> ltb y x = false -> ltb x y = true) ->
  StronglySorted lt l -> StronglySorted lt (insert ltb x l).
Proof.
  induction l as [|y l IH]; simpl; intros Htot Hs.
  - repeat constructor.
  - inversion Hs as [|? ? Hs' Hall]; subst.
    destruct (ltb y x) eqn:E.
    + constructor.
      * apply IH; auto.
      * rewrite Forall_forall in *. intros z Hz.
        apply (Permutation_in _ (insert_perm x l)) in Hz as [<-|Hz];
          [exact E | now apply Hall].
    + assert (Hxy : ltb x y = true) by (apply Htot; auto).
      constructor; [now constructor|].
      constructor; [exact Hxy|].
      rewrite Forall_forall in *. intros z Hz.
      apply ltb_trans with y; [exact Hxy | now apply Hall].
Qed.

Lemma sorted_sorted (l : list A) :
  ForallOrdPairs (fun x y => ltb y x = false -> ltb x y = true) l ->
  StronglySorted lt (sorted ltb l).
Proof.
  induction 1 as [|x l Hx Hl IH]; simpl.
  - constructor.
  - apply insert_sorted; auto.
    rewrite Forall_forall in Hx. intros y Hy.
    apply Hx. now apply (Permutation_in _ (sorted_perm l)).
Qed.
End SortedFacts.

(** *** re.sub with a class and an empty replacement is a filter *)

Lemma re_sub_class_empty (cc : char_class) (s : str) :
  re_sub_class cc [] s = filter (fun c => negb (class_matches cc c)) s.
Proof.
  unfold re_sub_class. induction s as [|c s IH]; simpl; auto.
  destruct (class_matches cc c); simpl; now rewrite IH.
Qed.

End PyFacts.

(* ================================================================== *)
(** ** generate_logos.py: lemmas *)
(* ================================================================== *)

Module LogosFacts.
Import Py PyFacts GenerateLogos.

(** *** Key derivation *)

Lemma class_is_alnum (c : char) :
  negb (class_matches ALNUM_COMPLEMENT c) = is_ascii_alnum c.
Proof.
  unfold class_matches, ALNUM_COMPLEMENT, is_ascii_alnum; simpl.
  rewrite orb_false_r.
  destruct ((97 <=? c) && (c <=? 122))%N, ((65 <=? c) && (c <=? 90))%N,
    ((48 <=? c) && (c <=? 57))%N; reflexivity.
Qed.

Lemma short_key_alnum (name : str) : short_key name = alnum_only name.
Proof.
  unfold short_key, alnum_only. rewrite re_sub_class_empty.
  apply filter_ext, class_is_alnum.
Qed.

Lemma isspace_not_alnum (c : char) :
  isspace c = true -> is_ascii_alnum c = false.
Proof.
  unfold isspace, is_ascii_alnum. intros H.
  apply not_true_is_false. intros H'.
  repeat rewrite ?orb_true_iff, ?andb_true_iff, ?N.leb_le, ?N.eqb_eq in H.
  repeat rewrite ?orb_true_iff, ?andb_true_iff, ?N.leb_le in H'.
  lia.
Qed.

Lemma alnum_only_spaces (a : str) :
  forallb isspace a = true -> alnum_only a = [].
Proof.
  unfold alnum_only. induction a as [|c a IH]; simpl; auto.
  rewrite andb_true_iff. intros [Hc Ha].
  now rewrite (isspace_not_alnum c Hc), IH.
Qed.

Lemma alnum_only_strip (s : str) : alnum_only (strip s) = alnum_only s.
Proof.
  destruct (strip_split s) as [a [b [Hs [Ha Hb]]]].
  rewrite Hs at 2. unfold alnum_only. rewrite !filter_app.
  fold (alnum_only a) (alnum_only b).
  now rewrite (alnum_only_spaces a Ha), (alnum_only_spaces b Hb), app_nil_r.
Qed.

(** *** The filter *)

Lemma url_ok_false (s : str) : url_ok s = false <-> disqualified s.
Proof.
  unfold url_ok, disqualified, occurs_in.
  rewrite !andb_false_iff, !negb_false_iff, !contains_spec.
  destruct s; simpl; intuition congruence.
Qed.

Lemma url_ok_true (s : str) : url_ok s = true <-> ~ disqualified s.
Proof.
  rewrite <- url_ok_false. destruct (url_ok s); split; congruence.
Qed.

(** *** The reader *)

Lemma zip_row_get (fieldnames row : list str) (d : dict cell) (k : str) :
  ~ In k fieldnames -> dict_get (zip_row fieldnames row d) k = dict_get d k.
Proof.
  revert row d; induction fieldnames as [|f fs IH]; intros row d Hk; simpl.
  - now destruct row.
  - assert (f <> k /\ ~ In k fs) as [Hf Hfs] by (simpl in Hk; tauto).
    destruct row as [|v vs]; rewrite IH by assumption;
      now apply dict_get_set_other.
Qed.

Lemma read_row_missing_column (fieldnames row : list str) :
  ~ In (u "university_name") fieldnames \/ ~ In (u "logo_url") fieldnames ->
  exists e, read_row (zip_row fieldnames row []) = inl e.
Proof.
  intros H. unfold read_row.
  destruct (dict_get (zip_row fieldnames row []) (u "university_name"))
    as [[raw|]|] eqn:En; eauto.
  destruct H as [H|H].
  - rewrite zip_row_get in En by assumption. discriminate.
  - rewrite zip_row_get by assumption. simpl. eauto.
Qed.

Lemma read_row_url (row : dict cell) (name logo_url : str) :
  read_row row = inr (name, logo_url) ->
  exists raw_name c,
    dict_get row (u "university_name") = Some (Some raw_name)
    /\ dict_get row (u "logo_url") = Some c
    /\ name = strip raw_name /\ logo_url = stripped_url c.
Proof.
  unfold read_row.
  destruct (dict_get row (u "university_name")) as [[raw|]|];
    try discriminate.
  destruct (dict_get row (u "logo_url")) as [[raw_url|]|]; try discriminate.
  - intros [= <- <-]. exists raw, (Some raw_url). repeat split.
    simpl. now destruct raw_url.
  - intros [= <- <-]. exists raw, None. now repeat split.
Qed.

(** *** The loop *)


Lemma load_rows_reads (rows : list (dict cell)) (d0 d : dict str) :
  load_rows rows d0 = inr d ->
  forall row, In row rows -> exists n url, read_row row = inr (n, url).
Proof.
  revert d0; induction rows as [|r rows IH]; intros d0; simpl.
  - intros _ row [].
  - destruct (read_row r) as [e|[n url]] eqn:E; [discriminate|].
    intros H row [<-|Hin]; eauto.
Qed.

Lemma load_rows_NoDup (rows : list (dict cell)) (d0 d : dict str) :
  load_rows rows d0 = inr d -> NoDup (keys d0) -> NoDup (keys d).
Proof.
  revert d0; induction rows as [|r rows IH]; intros d0; simpl.
  - now intros [= ->].
  - destruct (read_row r) as [e|[n url]]; [discriminate|].
    intros H Hnd. apply (IH _ H).
    destruct (url_ok url); auto using keys_set_NoDup.
Qed.

(** Every entry of the dict is the initial one or comes from a retained
    row. *)
Lemma load_rows_sound (rows : list (dict cell)) (d0 d : dict str) :
  load_rows rows d0 = inr d ->
  forall n url, dict_get d n = Some url ->
    dict_get d0 n = Some url
    \/ exists row, In row rows /\ retained row n url.
Proof.
  revert d0; induction rows as [|r rows IH]; intros d0; simpl.
  - intros [= ->]. auto.
  - destruct (read_row r) as [e|[n0 url0]] eqn:E; [discriminate|].
    intros H n url Hget.
    destruct (IH _ H n url Hget) as [Hd|[row [Hin Hret]]].
    + destruct (url_ok url0) eqn:Eok; auto.
      destruct (list_eq_dec N.eq_dec n0 n) as [->|Hne].
      * rewrite dict_get_set_same in Hd. injection Hd as ->.
        right. exists r. split; [now left | now split].
      * rewrite dict_get_set_other in Hd by assumption. auto.
    + right. exists row. split; [now right | assumption].
Qed.


(** A retained row puts its name in the dict, and keeps it there. *)
Lemma load_rows_keeps_key (rows : list (dict cell)) (d0 d : dict str) :
  load_rows rows d0 = inr d ->
  forall n, In n (keys d0) -> In n (keys d).
Proof.
  revert d0; induction rows as [|r rows IH]; intros d0; simpl.
  - now intros [= ->].
  - destruct (read_row r) as [e|[n0 url0]] eqn:E; [discriminate|].
    intros H n Hin. apply (IH _ H).
    destruct (url_ok url0); auto. apply keys_set. now right.
Qed.

Lemma load_rows_complete (rows : list (dict cell)) (d0 d : dict str) :
  load_rows rows d0 = inr d ->
  forall row n url, In row rows -> retained row n url -> In n (keys d).
Proof.
  revert d0; induction rows as [|r rows IH]; intros d0; simpl.
  - intros _ row n url [].
  - destruct (read_row r) as [e|[n0 url0]] eqn:E; [discriminate|].
    intros H row n url [<-|Hin] Hret.
    + destruct Hret as [Hr Hok]. rewrite E in Hr. injection Hr as -> ->.
      rewrite Hok in H. apply (load_rows_keeps_key _ _ _ H).
      apply keys_set. now left.
    + eapply IH; eauto.
Qed.


(** *** Sorting the items *)

Lemma pair_ltb_trans (p q r : str * str) :
  pair_ltb p q = true -> pair_ltb q r = true -> pair_ltb p r = true.
Proof.
  unfold pair_ltb.
  destruct (str_compare (fst p) (fst q)) eqn:Epq; try discriminate;
    destruct (str_compare (fst q) (fst r)) eqn:Eqr; try discriminate;
    intros Hpq Hqr.
  - apply str_compare_eq in Epq, Eqr. rewrite Epq, Eqr, str_compare_refl.
    apply str_ltb_lt. apply str_ltb_lt in Hpq, Hqr.
    eapply str_compare_trans; eauto.
  - apply str_compare_eq in Epq. now rewrite Epq, Eqr.
  - apply str_compare_eq in Eqr. now rewrite <- Eqr, Epq.
  - now rewrite (str_compare_trans _ _ _ Epq Eqr).
Qed.

Lemma distinct_keys_comparable (d : dict str) :
  NoDup (keys d) ->
  ForallOrdPairs (fun x y => pair_ltb y x = false -> pair_ltb x y = true) d.
Proof.
  induction d as [|p d IH]; simpl; intros Hnd; constructor.
  - inversion Hnd as [|? ? Hnotin _]; subst.
    apply Forall_forall. intros q Hq. apply pair_ltb_distinct.
    intros Heq. apply Hnotin. rewrite <- Heq. now apply in_map.
  - inversion Hnd; auto.
Qed.

Lemma sorted_by_pairs_by_names (l : list (str * str)) :
  StronglySorted (ordered_by pair_ltb) l -> NoDup (keys l) ->
  StronglySorted name_lt l.
Proof.
  induction 1 as [|p l Hs IH Hall]; simpl; intros Hnd; constructor.
  - inversion Hnd; auto.
  - inversion Hnd as [|? ? Hnotin _]; subst.
    rewrite Forall_forall in *. intros q Hq.
    specialize (Hall q Hq). unfold ordered_by, pair_ltb in Hall.
    unfold name_lt.
    destruct (str_compare (fst p) (fst q)) eqn:E; try discriminate; auto.
    apply str_compare_eq in E. exfalso. apply Hnotin. rewrite E.
    now apply in_map.
Qed.

Lemma sorted_items_perm (d : dict str) : Permutation (sorted_items d) d.
Proof. apply sorted_perm. Qed.

Lemma sorted_items_NoDup (d : dict str) :
  NoDup (keys d) -> NoDup (keys (sorted_items d)).
Proof.
  intros Hnd. eapply Permutation_NoDup; [|exact Hnd].
  apply Permutation_map, Permutation_sym, sorted_items_perm.
Qed.

Lemma sorted_items_by_name (d : dict str) :
  NoDup (keys d) -> StronglySorted name_lt (sorted_items d).
Proof.
  intros Hnd. apply sorted_by_pairs_by_names.
  - apply sorted_sorted; [exact pair_ltb_trans|].
    now apply distinct_keys_comparable.
  - now apply sorted_items_NoDup.
Qed.

Lemma StronglySorted_tail {A} (R : A -> A -> Prop) (l1 l2 : list A) :
  StronglySorted R (l1 ++ l2) -> StronglySorted R l2.
Proof.
  induction l1 as [|x l1 IH]; simpl; auto.
  intros H. inversion H; auto.
Qed.

(** In a strictly sorted list, the smaller of two members comes first. *)
Lemma sorted_before {A} (R : A -> A -> Prop) (l : list A) (a b : A) :
  StronglySorted R l -> In a l -> In b l -> a <> b -> ~ R b a ->
  exists l1 l2 l3, l = l1 ++ a :: l2 ++ b :: l3.
Proof.
  intros Hs Ha Hb Hne Hnot.
  apply in_split in Ha as [l1 [r ->]].
  apply in_app_or in Hb as [Hb|[Hb|Hb]].
  - exfalso. apply in_split in Hb as [x [y ->]].
    rewrite <- app_assoc in Hs. apply StronglySorted_tail in Hs.
    simpl in Hs. inversion Hs as [|? ? _ Hall]; subst.
    rewrite Forall_forall in Hall. apply Hnot, Hall.
    apply in_or_app. right. now left.
  - contradiction.
  - apply in_split in Hb as [l2 [l3 ->]]. now exists l1, l2, l3.
Qed.

Lemma In_entries (d : dict str) (name url : str) :
  In (name, url) d -> In (entry_line name url) (entries d).
Proof.
  intros Hin. unfold entries.
  apply (in_map (fun '(name, url) => entry_line name url) _ (name, url)).
  apply (Permutation_in _ (Permutation_sym (sorted_items_perm d)) Hin).
Qed.

Lemma entries_In (d : dict str) (line : str) :
  In line (entries d) ->
  exists name url, In (name, url) d /\ line = entry_line name url.
Proof.
  unfold entries. rewrite in_map_iff. intros [[name url] [<- Hin]].
  exists name, url. split; auto.
  apply (Permutation_in _ (sorted_items_perm d) Hin).
Qed.

Lemma entries_length (d : dict str) :
  List.length (entries d) = List.length d.
Proof.
  unfold entries. rewrite length_map.
  apply Permutation_length, sorted_items_perm.
Qed.

Lemma entry_line_spec (name url : str) :
  entry_line name url
  = u "  '" ++ alnum_only name ++ u "': '" ++ url ++ u "',".
Proof. unfold entry_line. now rewrite short_key_alnum. Qed.

(** The entries of two names, the smaller first. *)
Lemma entries_in_order (d : dict str) (a ua b ub : str) :
  NoDup (keys d) -> In (a, ua) d -> In (b, ub) d -> str_compare a b = Lt ->
  exists l1 l2 l3,
    entries d = l1 ++ entry_line a ua :: l2 ++ entry_line b ub :: l3.
Proof.
  intros Hnd Ha Hb Hlt.
  destruct (sorted_before name_lt (sorted_items d) (a, ua) (b, ub))
    as [l1 [l2 [l3 Hl]]].
  - now apply sorted_items_by_name.
  - apply (Permutation_in _ (Permutation_sym (sorted_items_perm d)) Ha).
  - apply (Permutation_in _ (Permutation_sym (sorted_items_perm d)) Hb).
  - intros [= -> _]. now rewrite str_compare_refl in Hlt.
  - unfold name_lt; simpl. rewrite (str_compare_antisym a b), Hlt.
    discriminate.
  - set (f := fun '(name, url) => entry_line name url).
    exists (map f l1), (map f l2), (map f l3).
    unfold entries. fold f. rewrite Hl, map_app. simpl.
    now rewrite map_app.
Qed.

(** *** The loaded dict and the rows *)

Lemma loaded_NoDup (f : csv_rows) (universities : dict str) :
  load_rows (DictReader f) [] = inr universities -> NoDup (keys universities).
Proof. intros H. apply (load_rows_NoDup _ _ _ H). constructor. Qed.

Lemma loaded_from_row (f : csv_rows) (universities : dict str) :
  load_rows (DictReader f) [] = inr universities ->
  forall name url, In (name, url) universities ->
    exists row, In row (DictReader f) /\ retained row name url.
Proof.
  intros H name url Hin.
  apply In_dict_get in Hin; [|now apply (loaded_NoDup f)].
  destruct (load_rows_sound _ _ _ H name url Hin) as [Hd|Hrow]; auto.
  discriminate.
Qed.

Lemma retained_has_entry (f : csv_rows) (universities : dict str) :
  load_rows (DictReader f) [] = inr universities ->
  forall row name logo_url,
    In row (DictReader f) -> retained row name logo_url ->
    exists url, In (name, url) universities.
Proof.
  intros H row name logo_url Hin Hret.
  pose proof (load_rows_complete _ _ _ H row name logo_url Hin Hret) as Hk.
  unfold keys in Hk. apply in_map_iff in Hk as [[n url] [Hn Hd]].
  simpl in Hn; subst n. now exists url.
Qed.

(** *** The downstream structure *)



End LogosFacts.

(* ================================================================== *)
(** ** generate_logos.py: the specification's claims *)
(* ================================================================== *)

Module LogosSpec.
Import Py PyFacts GenerateLogos LogosFacts.

Example sample_loads :
  load_rows (DictReader sample_csv) [] = inr sample_universities.
Proof. reflexivity. Qed.

Example sample_entries :
  entries sample_universities
  = [ u "  '': 'https://d.example/dangerous.png',";
      u "  'AB': 'https://c.example/ab1.png',";
      u "  'AB': 'https://c.example/ab2.png',";
      u "  'AgaKhan': 'https://a.example/k.png',";
      u "  'QuaidiAzamUniversity': 'https://example.com/logo.png'," ].
Proof. reflexivity. Qed.

Example sample_missing_cell :
  main (Some [ [u "logo_url"; u "university_name"]; [u "https://e.example"] ])
  = ([], Some AttributeError).
Proof. reflexivity. Qed.

(** C1. For every row that passes the URL filter, the key of the entry
    emitted for its name is the name with every character that is not an
    ASCII letter or digit removed (whether or not the name is stripped
    first); every emitted entry has this form; and the one-row CSV with
    name "Quaid-i-Azam University" and URL "https://example.com/logo.png"
    writes exactly the line
    "  'QuaidiAzamUniversity': 'https://example.com/logo.png',"
    between the header and the closing line. *)
Theorem C1_key_is_alnum_name :
  (forall name, short_key name = alnum_only name)
  /\ (forall (f : csv_rows) universities row raw_name name logo_url,
        load_rows (DictReader f) [] = inr universities ->
        In row (DictReader f) ->
        dict_get row (u "university_name") = Some (Some raw_name) ->
        retained row name logo_url ->
        exists url,
          In (name, url) universities
          /\ In (u "  '" ++ alnum_only raw_name ++ u "': '" ++ url ++ u "',")
                (entries universities))
  /\ (forall universities line,
        In line (entries universities) ->
        exists name url,
          In (name, url) universities
          /\ line = u "  '" ++ alnum_only name ++ u "': '" ++ url ++ u "',")
  /\ written OUT_PATH
       (fst (main (Some [ [u "university_name"; u "logo_url"];
                          [u "Quaid-i-Azam University";
                           u "https://example.com/logo.png"] ])))
     = Some (join NL
               (HEADER
                ++ [u "  'QuaidiAzamUniversity': 'https://example.com/logo.png',"]
                ++ [u "};"])).
Proof.
  split; [exact short_key_alnum|].
  split; [|split; [|reflexivity]].
  - intros f universities row raw_name name logo_url Hload Hin Hraw Hret.
    destruct (retained_has_entry f universities Hload row name logo_url
                Hin Hret) as [url Hurl].
    exists url. split; [assumption|].
    destruct Hret as [Hread _].
    apply read_row_url in Hread as [raw' [c [Hraw' [_ [Hname _]]]]].
    rewrite Hraw in Hraw'. injection Hraw' as <-.
    rewrite <- (alnum_only_strip raw_name), <- Hname, <- entry_line_spec.
    now apply In_entries.
  - intros universities line Hline.
    apply entries_In in Hline as [name [url [Hin ->]]].
    exists name, url. split; [assumption | apply entry_line_spec].
Qed.

Lemma C1_witness :
  exists url,
    In (u "Quaid-i-Azam University", url) sample_universities
    /\ In (u "  '" ++ alnum_only (u "Quaid-i-Azam University") ++ u "': '"
             ++ url ++ u "',")
          (entries sample_universities).
Proof.
  apply (proj1 (proj2 C1_key_is_alnum_name) sample_csv sample_universities
           (sample_row 0) (u "Quaid-i-Azam University")
           (u "Quaid-i-Azam University") (u "https://example.com/logo.png")).
  - reflexivity.
  - left. reflexivity.
  - reflexivity.
  - split; reflexivity.
Defined.




(** C3. The entry lines are in increasing order of the stripped,
    unsanitised names: the sorted items are a permutation of the
    retained ones, strictly increasing by name, and for two retained
    rows with names [a < b] the entry of [a] stands before the entry of
    [b] between the header and the closing line. *)
Theorem C3_entries_sorted_by_name :
  forall (f : csv_rows) universities,
    load_rows (DictReader f) [] = inr universities ->
    Permutation (sorted_items universities) universities
    /\ StronglySorted name_lt (sorted_items universities)
    /\ forall rowa rowb a b urla urlb,
         In rowa (DictReader f) -> In rowb (DictReader f) ->
         retained rowa a urla -> retained rowb b urlb ->
         str_compare a b = Lt ->
         exists ua ub l1 l2 l3,
           In (a, ua) universities /\ In (b, ub) universities
           /\ generate_lines universities
              = HEADER ++ (l1 ++ entry_line a ua :: l2
                              ++ entry_line b ub :: l3) ++ [u "};"].
Proof.
  intros f universities Hload.
  pose proof (loaded_NoDup f universities Hload) as Hnd.
  split; [apply sorted_items_perm|].
  split; [now apply sorted_items_by_name|].
  intros rowa rowb a b urla urlb Hina Hinb Hra Hrb Hlt.
  destruct (retained_has_entry f universities Hload rowa a urla Hina Hra)
    as [ua Hua].
  destruct (retained_has_entry f universities Hload rowb b urlb Hinb Hrb)
    as [ub Hub].
  destruct (entries_in_order universities a ua b ub Hnd Hua Hub Hlt)
    as [l1 [l2 [l3 Hl]]].
  exists ua, ub, l1, l2, l3. repeat split; auto.
  unfold generate_lines. now rewrite Hl.
Qed.

Lemma C3_witness :
  exists ua ub l1 l2 l3,
    In (u "A.B", ua) sample_universities
    /\ In (u "Aga Khan", ub) sample_universities
    /\ generate_lines sample_universities
       = HEADER ++ (l1 ++ entry_line (u "A.B") ua :: l2
                       ++ entry_line (u "Aga Khan") ub :: l3) ++ [u "};"].
Proof.
  apply (proj2 (proj2 (C3_entries_sorted_by_name sample_csv
                         sample_universities eq_refl))
           (sample_row 4) (sample_row 2) (u "A.B") (u "Aga Khan")
           (u "https://c.example/ab1.png") (u "https://a.example/k.png")).
  - do 4 right. left. reflexivity.
  - do 2 right. left. reflexivity.
  - split; reflexivity.
  - split; reflexivity.
  - reflexivity.
Defined.

(** C4. A run that ends in an exception has performed no effect at all,
    so nothing was written to 'university_logos_complete.ts': this is
    what happens when the CSV file is missing, and when a required
    column is absent and the file has a data line.  A run that succeeds
    writes the file once, after the whole CSV has been read and every
    line generated, with only prints before it. *)
Theorem C4_no_output_on_failure :
  main None = ([], Some (FileNotFoundError CSV_PATH))
  /\ (forall fieldnames rest,
        ~ In (u "university_name") fieldnames
        \/ ~ In (u "logo_url") fieldnames ->
        (exists row, In row rest /\ row <> []) ->
        exists e, main (Some (fieldnames :: rest)) = ([], Some e))
  /\ (forall csv trace e,
        main csv = (trace, Some e) ->
        trace = [] /\ written OUT_PATH trace = None)
  /\ (forall csv trace,
        main csv = (trace, None) ->
        exists f universities pre,
          csv = Some f
          /\ load_rows (DictReader f) [] = inr universities
          /\ trace
             = pre ++ [ FileWrite OUT_PATH
                          (join NL (generate_lines universities));
                        Stdout (NL ++ [9989%N]
                               ++ u " Saved to university_logos_complete.ts") ]
          /\ (forall ev, In ev pre -> exists s, ev = Stdout s)
          /\ written OUT_PATH trace
             = Some (join NL (generate_lines universities))).
Proof.
  split; [reflexivity|]. split; [|split].
  - intros fieldnames rest Hcol [row [Hin Hrow]].
    unfold main, DictReader.
    assert (Hf : In row (filter (fun r => negb (is_blank r)) rest)).
    { apply filter_In. split; auto. now destruct row. }
    destruct (filter (fun r => negb (is_blank r)) rest) as [|r0 rs];
      [destruct Hf|].
    simpl.
    destruct (read_row_missing_column fieldnames r0 Hcol) as [e ->].
    now exists e.
  - intros [f|] trace e; simpl.
    + destruct (load_rows (DictReader f) []) as [e'|d]; intros [= <- _];
        auto.
    + intros [= <- _]. auto.
  - intros [f|] trace; simpl; [|discriminate].
    destruct (load_rows (DictReader f) []) as [e'|d] eqn:E; [discriminate|].
    intros [= <-].
    exists f, d.
    exists ([ Stdout (u "Total valid universities: "
                     ++ str_of_nat (List.length d));
              Stdout (NL ++ u "=== TypeScript Mapping ===" ++ NL);
              Stdout (NL ++ u "Generated " ++ str_of_nat (List.length d)
                     ++ u " mappings");
              Stdout (NL ++ u "First 5 entries:") ]
            ++ map Stdout (slice (generate_lines d) 5 10)
            ++ [ Stdout (NL ++ u "Last 5 entries:") ]
            ++ map Stdout (slice (generate_lines d) (-6) (-1))).
    assert (Hpre : forall l1 l2 ev,
               In ev ([ Stdout (u "Total valid universities: "
                               ++ str_of_nat (List.length d));
                        Stdout (NL ++ u "=== TypeScript Mapping ===" ++ NL);
                        Stdout (NL ++ u "Generated "
                               ++ str_of_nat (List.length d)
                               ++ u " mappings");
                        Stdout (NL ++ u "First 5 entries:") ]
                      ++ map Stdout l1
                      ++ [ Stdout (NL ++ u "Last 5 entries:") ]
                      ++ map Stdout l2) ->
               exists s, ev = Stdout s).
    { intros l1 l2 ev Hev. simpl in Hev.
      repeat (destruct Hev as [<-|Hev]; [eauto|]).
      apply in_app_or in Hev as [Hev|[<-|Hev]]; eauto.
      - apply in_map_iff in Hev as [s [<- _]]. eauto.
      - apply in_map_iff in Hev as [s [<- _]]. eauto. }
    assert (Hw : forall pre c tl,
               (forall ev, In ev pre -> exists s, ev = Stdout s) ->
               written OUT_PATH (pre ++ [FileWrite OUT_PATH c; Stdout tl])
               = Some c).
    { induction pre as [|ev pre IH]; intros c tl Hall.
      - reflexivity.
      - destruct (Hall ev (or_introl eq_refl)) as [s ->]. simpl.
        apply IH. intros ev' Hev'. apply Hall. now right. }
    assert (Heq : forall (a b c e g : list event),
               a ++ b ++ c ++ e ++ g = (a ++ b ++ c ++ e) ++ g).
    { intros. now rewrite <- !app_assoc. }
    unfold report. rewrite Heq.
    split; [reflexivity|]. split; [exact E|]. split; [reflexivity|].
    split; [apply Hpre|]. apply Hw. apply Hpre.
Qed.

Lemma C4_witness :
  (exists e,
     main (Some [ [u "name"; u "logo_url"];
                  [u "Quaid-i-Azam University";
                   u "https://example.com/logo.png"] ])
     = ([], Some e))
  /\ ([] = @nil event /\ written OUT_PATH [] = None).
Proof.
  split.
  - apply (proj1 (proj2 C4_no_output_on_failure)).
    + left. intros [H|[H|[]]]; discriminate H.
    + exists [u "Quaid-i-Azam University"; u "https://example.com/logo.png"].
      split; [left; reflexivity | discriminate].
  - apply (proj1 (proj2 (proj2 C4_no_output_on_failure))
             (Some [ [u "name"; u "logo_url"];
                     [u "Quaid-i-Azam University";
                      u "https://example.com/logo.png"] ])
             [] (KeyError (u "university_name"))).
    reflexivity.
Defined.



Example sample_downstream :
  dict_get (downstream_mapping sample_universities) (u "AB")
  = Some (u "https://c.example/ab2.png").
Proof. reflexivity. Qed.

(** C9. The filter is case-sensitive: a URL containing 'not have' or
    'dangerous' in lower case, and otherwise not disqualified, passes
    the filter; its row is retained and an entry for its name is in the
    output.  In particular the lower-case phrases themselves pass, and
    two URLs that differ only in the case of the phrase's first letter
    are treated differently. *)
Theorem C9_filter_case_sensitive :
  url_ok (u "not have") = true
  /\ url_ok (u "dangerous") = true
  /\ (url_ok (u "https://d.example/dangerous.png") = true
      /\ url_ok (u "https://d.example/Dangerous.png") = false)
  /\ (url_ok (u "https://d.example/not have.png") = true
      /\ url_ok (u "https://d.example/Not have.png") = false)
  /\ forall (f : csv_rows) universities row name logo_url,
       load_rows (DictReader f) [] = inr universities ->
       In row (DictReader f) ->
       read_row row = inr (name, logo_url) ->
       occurs_in (u "not have") logo_url
       \/ occurs_in (u "dangerous") logo_url ->
       ~ disqualified logo_url ->
       retained row name logo_url
       /\ exists url,
            In (name, url) universities
            /\ In (entry_line name url) (generate_lines universities).
Proof.
  split; [reflexivity|]. split; [reflexivity|].
  split; [split; reflexivity|]. split; [split; reflexivity|].
  intros f universities row name logo_url Hload Hin Hread _ Hnd.
  assert (Hret : retained row name logo_url).
  { split; [assumption | now apply url_ok_true]. }
  split; [assumption|].
  destruct (retained_has_entry f universities Hload row name logo_url
              Hin Hret) as [url Hurl].
  exists url. split; [assumption|].
  unfold generate_lines. apply in_or_app. right.
  apply in_or_app. left. now apply In_entries.
Qed.

Lemma C9_witness :
  retained (sample_row 5) (u "?!") (u "https://d.example/dangerous.png")
  /\ exists url,
       In (u "?!", url) sample_universities
       /\ In (entry_line (u "?!") url) (generate_lines sample_universities).
Proof.
  apply (proj2 (proj2 (proj2 (proj2 C9_filter_case_sensitive))) sample_csv).
  - reflexivity.
  - do 5 right. left. reflexivity.
  - reflexivity.
  - right. exists (u "https://d.example/"), (u ".png"). reflexivity.
  - intros H. apply url_ok_false in H. discriminate H.
Defined.



End LogosSpec.

(* ================================================================== *)
(** ** scripts/generate-icons.py: lemmas and claims *)
(* ================================================================== *)

Module IconsSpec.
Import GenerateIcons.
Local Open Scope string_scope.
Local Open Scope Z_scope.

(** *** Pillow's blend on bytes *)

Lemma DIV255_times_255 (s : Z) : 0 <= s <= 255 -> DIV255 (s * 255) = s.
Proof.
  intros Hs. unfold DIV255. rewrite !Z.shiftr_div_pow2 by lia.
  change (2 ^ 8) with 256. Z.div_mod_to_equations. lia.
Qed.

Lemma DIV255_range (a : Z) : 0 <= a <= 255 * 255 -> 0 <= DIV255 a <= 255.
Proof.
  intros Ha. unfold DIV255. rewrite !Z.shiftr_div_pow2 by lia.
  change (2 ^ 8) with 256. Z.div_mod_to_equations. lia.
Qed.

Lemma is_byte_spec (v : Z) : is_byte v = true <-> 0 <= v <= 255.
Proof. unfold is_byte. rewrite andb_true_iff, !Z.leb_le. tauto. Qed.

Lemma BLEND8_byte (m d s : Z) :
  is_byte m = true -> is_byte d = true -> is_byte s = true ->
  is_byte (BLEND8 m d s) = true.
Proof.
  rewrite !is_byte_spec. intros Hm Hd Hs. unfold BLEND8.
  apply DIV255_range. nia.
Qed.

Lemma BLEND8_opaque (d s : Z) : is_byte s = true -> BLEND8 255 d s = s.
Proof.
  rewrite is_byte_spec. intros Hs. unfold BLEND8.
  replace (d * (255 - 255) + s * 255) with (s * 255) by lia.
  now apply DIV255_times_255.
Qed.

Lemma BLEND8_clear (s : Z) : BLEND8 0 0 s = 0.
Proof.
  unfold BLEND8. now replace (0 * (255 - 0) + s * 0) with 0 by lia.
Qed.

Lemma blend_bands_length (m : Z) (dst src : pixel) :
  List.length (blend_bands m dst src) = List.length dst.
Proof.
  revert src; induction dst as [|d dst IH]; intros [|s src]; simpl; auto.
Qed.

Lemma blend_opaque_rgba (p : pixel) :
  rgba_bytes p = true -> blend_bands 255 CLEAR_RGBA p = p.
Proof.
  destruct p as [|r [|g [|b [|a [|? ?]]]]]; try discriminate.
  unfold CLEAR_RGBA. cbn [rgba_bytes blend_bands].
  rewrite !andb_true_iff. intros [[[Hr Hg] Hb] Ha].
  now rewrite !BLEND8_opaque.
Qed.

Lemma blend_clear_rgba (p : pixel) :
  blend_bands 0 CLEAR_RGBA p = CLEAR_RGBA.
Proof.
  unfold CLEAR_RGBA.
  destruct p as [|r [|g [|b [|a p]]]]; cbn [blend_bands];
    rewrite ?BLEND8_clear; reflexivity.
Qed.

Lemma blend_white_rgba (p : pixel) :
  rgba_bytes p = true ->
  rgba_bytes (blend_bands (nth 3 p 0) WHITE_RGBA p) = true.
Proof.
  destruct p as [|r [|g [|b [|a [|? ?]]]]]; try discriminate.
  unfold WHITE_RGBA. cbn [rgba_bytes blend_bands nth].
  rewrite !andb_true_iff. intros [[[Hr Hg] Hb] Ha].
  repeat split; apply BLEND8_byte; auto.
Qed.

(** *** The round variant of a tier, pixel by pixel *)

Section RoundVariant.
Variable svg : Type.
Variable rasterize : svg -> Z -> Z -> Z -> Z -> pixel.
Variable ellipse_fill : Z * Z * Z * Z -> Z -> Z -> bool.
Hypothesis rasterize_bytes :
  forall s w h x y, rgba_bytes (rasterize s w h x y) = true.
Variable icon : svg.
Variable size : Z.

Lemma round_mask_value (x y : Z) :
  (0 <=? x) && (x <? size) && (0 <=? y) && (y <? size) = true ->
  mask_value (round_mask ellipse_fill size) x y
  = if ellipse_fill (0, 0, size, size) x y then 255 else 0.
Proof.
  intros Hb. unfold mask_value, round_mask, draw_ellipse, in_bounds; simpl.
  rewrite Hb. simpl. now destruct (ellipse_fill (0, 0, size, size) x y).
Qed.

Lemma round_canvas_bytes (x y : Z) :
  rgba_bytes (im_px (tier_round_canvas rasterize icon size) x y) = true.
Proof.
  unfold tier_round_canvas, paste; simpl.
  match goal with |- context [if ?b then _ else _] => destruct b end.
  - unfold mask_value; simpl. apply blend_white_rgba, rasterize_bytes.
  - reflexivity.
Qed.

Lemma round_canvas_outside_icon (x y : Z) :
  in_bounds (tier_fg rasterize icon size)
            (x - tier_offset size) (y - tier_offset size) = false ->
  im_px (tier_round_canvas rasterize icon size) x y = WHITE_RGBA.
Proof.
  intros Hout. unfold tier_round_canvas, paste; simpl.
  change (in_bounds (tier_fg rasterize icon size)
            (x - tier_offset size) (y - tier_offset size) = false) in Hout.
  unfold tier_fg in Hout. simpl in Hout. unfold in_bounds in *.
  simpl in *. rewrite Hout. now rewrite andb_false_r.
Qed.

Lemma round_pixel (x y : Z) :
  (0 <=? x) && (x <? size) && (0 <=? y) && (y <? size) = true ->
  im_px (tier_round rasterize ellipse_fill icon size) x y
  = if ellipse_fill (0, 0, size, size) x y
    then im_px (tier_round_canvas rasterize icon size) x y
    else CLEAR_RGBA.
Proof.
  intros Hb. unfold tier_round.
  unfold paste at 1. cbv beta iota. simpl im_px at 1.
  rewrite !Z.sub_0_r.
  assert (Hd : in_bounds (Image_new RGBA (size, size) CLEAR_RGBA) x y
               = true) by exact Hb.
  assert (Hc : in_bounds (tier_round_canvas rasterize icon size) x y
               = true) by exact Hb.
  rewrite Hd, Hc. simpl andb. cbv iota.
  rewrite (round_mask_value x y Hb).
  change (im_px (Image_new RGBA (size, size) CLEAR_RGBA) x y)
    with CLEAR_RGBA.
  destruct (ellipse_fill (0, 0, size, size) x y).
  - apply blend_opaque_rgba, round_canvas_bytes.
  - apply blend_clear_rgba.
Qed.
End RoundVariant.

(** *** The claims *)

Example inner_sizes :
  map inner_size_of (map snd MIPMAP_SIZES) = [37; 56; 74; 112; 149].
Proof. reflexivity. Qed.

Example F0_78_is_the_literal :
  SFdiv 53 1024 (float_of_int 78) (float_of_int 100) = F0_78.
Proof. reflexivity. Qed.

Example run_without_icon_source :
  fst (run sample_rasterize sample_lanczos sample_ellipse
           (Some SAMPLE_LOGO) None)
  = Raised (FileNotFoundError ICON_SVG).
Proof. reflexivity. Qed.

(** C6, as stated, fails: the store icon's source is resized from
    400 x 400 to 420 x 420, which is not a smaller size. *)
Lemma C6_resize_is_not_smaller :
  ~ (forall (svg : Type) (rasterize : svg -> Z -> Z -> Z -> Z -> pixel)
            (lanczos : image -> Z -> Z -> Z -> Z -> pixel) (icon : svg),
       im_width (icon_for_store rasterize lanczos icon)
       < im_width (icon_fg rasterize icon)).
Proof.
  intros H.
  specialize (H sample_svg sample_rasterize sample_lanczos SAMPLE_ICON).
  simpl in H. lia.
Qed.

(** C6, amended.  The store icon is made from the same 400 x 400
    rasterisation of the icon vector as the round icon, resized to the
    fixed size 420 x 420 (larger than the render, smaller than the
    canvas), pasted at offset 46, which centres it, onto a white
    512 x 512 "RGB" image, whose pixels have three bands and no alpha;
    it is the only file written to the store directory. *)
Theorem C6_store_icon :
  forall (svg : Type) (rasterize : svg -> Z -> Z -> Z -> Z -> pixel)
         (lanczos : image -> Z -> Z -> Z -> Z -> pixel)
         (ellipse_fill : Z * Z * Z * Z -> Z -> Z -> bool)
         (logo icon : svg),
    let w := run rasterize lanczos ellipse_fill (Some logo) (Some icon) in
    let fg := icon_fg rasterize icon in
    let resized := icon_for_store rasterize lanczos icon in
    let store := store_icon rasterize lanczos icon in
    fst w = Ok tt
    /\ fg = render rasterize icon 400 400
    /\ In (Wrote (path_join IMG_DIR ["pakuni-icon-round.png"])
             (paste (Image_new RGBA (512, 512) CLEAR_RGBA)
                (paste (Image_new RGBA (512, 512) WHITE_RGBA) fg (56, 56) fg)
                (0, 0) (round_mask ellipse_fill 512)))
          (log (snd w))
    /\ filter (wrote_into STORE_DIR) (log (snd w))
       = [Wrote (path_join STORE_DIR ["icon-512.png"]) store]
    /\ fs_read (fs (snd w)) (path_join STORE_DIR ["icon-512.png"])
       = Some (FPng store)
    /\ resized = resize lanczos fg (420, 420)
    /\ store = paste (Image_new RGB (512, 512) WHITE_RGB) resized (46, 46)
                     resized
    /\ (im_width fg = 400 /\ im_height fg = 400)
    /\ (im_width resized = 420 /\ im_height resized = 420)
    /\ (im_width fg < im_width resized < im_width store)
    /\ 46 + im_width resized + 46 = im_width store
    /\ (im_mode store = RGB /\ im_width store = 512 /\ im_height store = 512)
    /\ (forall x y, List.length (im_px store x y) = 3%nat)
    /\ (forall x y,
          im_px store x y
          = if in_bounds store x y && in_bounds resized (x - 46) (y - 46)
            then blend_bands (nth 3 (im_px resized (x - 46) (y - 46)) 0)
                             WHITE_RGB (im_px resized (x - 46) (y - 46))
            else WHITE_RGB).
Proof.
  intros svg rasterize lanczos ellipse_fill logo icon w fg resized store.
  split; [reflexivity|]. split; [reflexivity|].
  split; [apply (nth_error_In _ 5); reflexivity|].
  split; [reflexivity|]. split; [reflexivity|].
  split; [reflexivity|]. split; [reflexivity|].
  split; [split; reflexivity|]. split; [split; reflexivity|].
  split; [simpl; lia|]. split; [reflexivity|].
  split; [repeat split|].
  split; [|reflexivity].
  intros x y. subst store. unfold store_icon, paste. cbn [im_px].
  match goal with |- context [if ?b then _ else _] => destruct b end.
  - apply blend_bands_length.
  - reflexivity.
Qed.

(** C7.  The run succeeds and, for each of the five tiers 48, 72, 96,
    144, 192: [int(size * 0.78)] is the floor of 0.78 x size; exactly
    two files are written into the tier's directory, the square one and
    the round one, both of the full tier size; and in both the icon,
    rendered at the inner size, is pasted at offset
    (size - inner) div 2, which centres it up to one pixel. *)
Theorem C7_density_tiers :
  forall (svg : Type) (rasterize : svg -> Z -> Z -> Z -> Z -> pixel)
         (lanczos : image -> Z -> Z -> Z -> Z -> pixel)
         (ellipse_fill : Z * Z * Z * Z -> Z -> Z -> bool)
         (logo icon : svg),
    let w := run rasterize lanczos ellipse_fill (Some logo) (Some icon) in
    fst w = Ok tt
    /\ map snd MIPMAP_SIZES = [48; 72; 96; 144; 192]
    /\ Forall (fun '(folder, size) =>
         let inner := 78 * size / 100 in
         let offset := (size - inner) / 2 in
         let fg := render rasterize icon inner inner in
         let square :=
           paste (Image_new RGB (size, size) WHITE_RGB) fg
                 (offset, offset) fg in
         let round :=
           paste (Image_new RGBA (size, size) CLEAR_RGBA)
                 (paste (Image_new RGBA (size, size) WHITE_RGBA) fg
                        (offset, offset) fg)
                 (0, 0) (round_mask ellipse_fill size) in
         inner_size_of size = inner
         /\ 0 <= (size - inner) - 2 * offset <= 1
         /\ filter (wrote_into (path_join ANDROID_RES [folder]))
                   (log (snd w))
            = [ Wrote (path_join ANDROID_RES [folder; "ic_launcher.png"])
                      square;
                Wrote (path_join ANDROID_RES
                         [folder; "ic_launcher_round.png"])
                      round ]
         /\ (im_width square = size /\ im_height square = size)
         /\ (im_width round = size /\ im_height round = size))
       MIPMAP_SIZES.
Proof.
  intros svg rasterize lanczos ellipse_fill logo icon w.
  split; [reflexivity|]. split; [reflexivity|].
  repeat constructor; try (vm_compute; congruence).
Qed.

(** C8, as stated, fails: on a document that paints nothing where the
    pixel lies, the pixel (24, 2) of the 48-pixel round variant, inside
    the circle and outside the pasted icon, is opaque white in the file
    the script writes and transparent in the variant the claim
    describes. *)
Lemma C8_canvas_is_not_transparent :
  ~ (forall (svg : Type) (rasterize : svg -> Z -> Z -> Z -> Z -> pixel)
            (ellipse_fill : Z * Z * Z * Z -> Z -> Z -> bool)
            (icon : svg) (size x y : Z),
       In size (map snd MIPMAP_SIZES) ->
       im_px (tier_round rasterize ellipse_fill icon size) x y
       = im_px (claimed_round rasterize ellipse_fill icon size) x y).
Proof.
  intros H.
  specialize (H sample_svg sample_rasterize sample_ellipse SAMPLE_ICON 48 24 2
                (or_introl eq_refl)).
  vm_compute in H. discriminate H.
Qed.

(** C8, amended.  With a renderer that delivers four byte bands, the
    round variant of each tier is the rendered icon composited onto an
    opaque white canvas, and that canvas pasted onto a transparent image
    through a mask that is 255 where the ellipse of bounding box
    (0, 0, size, size) is filled and 0 elsewhere: inside the ellipse
    the file holds the white-backed icon (white outside the pasted icon),
    outside it the pixel is fully transparent. *)
Theorem C8_round_variant_white_backed :
  forall (svg : Type) (rasterize : svg -> Z -> Z -> Z -> Z -> pixel)
         (lanczos : image -> Z -> Z -> Z -> Z -> pixel)
         (ellipse_fill : Z * Z * Z * Z -> Z -> Z -> bool)
         (logo icon : svg),
    (forall s w h x y, rgba_bytes (rasterize s w h x y) = true) ->
    let w := run rasterize lanczos ellipse_fill (Some logo) (Some icon) in
    Forall (fun '(folder, size) =>
      let fg := tier_fg rasterize icon size in
      let offset := tier_offset size in
      let canvas := tier_round_canvas rasterize icon size in
      let round := tier_round rasterize ellipse_fill icon size in
      In (Wrote (path_join ANDROID_RES [folder; "ic_launcher_round.png"])
                round)
         (log (snd w))
      /\ canvas = paste (Image_new RGBA (size, size) WHITE_RGBA) fg
                        (offset, offset) fg
      /\ round = paste (Image_new RGBA (size, size) CLEAR_RGBA) canvas (0, 0)
                       (round_mask ellipse_fill size)
      /\ forall x y,
           in_bounds round x y = true ->
           mask_value (round_mask ellipse_fill size) x y
           = (if ellipse_fill (0, 0, size, size) x y then 255 else 0)
           /\ (in_bounds fg (x - offset) (y - offset) = false ->
               im_px canvas x y = WHITE_RGBA)
           /\ im_px round x y
              = if ellipse_fill (0, 0, size, size) x y
                then im_px canvas x y
                else CLEAR_RGBA)
      MIPMAP_SIZES.
Proof.
  intros svg rasterize lanczos ellipse_fill logo icon Hbytes w.
  assert (Hpix : forall size x y,
             in_bounds (tier_round rasterize ellipse_fill icon size) x y
             = true ->
             mask_value (round_mask ellipse_fill size) x y
             = (if ellipse_fill (0, 0, size, size) x y then 255 else 0)
             /\ (in_bounds (tier_fg rasterize icon size)
                   (x - tier_offset size) (y - tier_offset size) = false ->
                 im_px (tier_round_canvas rasterize icon size) x y
                 = WHITE_RGBA)
             /\ im_px (tier_round rasterize ellipse_fill icon size) x y
                = if ellipse_fill (0, 0, size, size) x y
                  then im_px (tier_round_canvas rasterize icon size) x y
                  else CLEAR_RGBA).
  { intros size x y Hb. split; [|split].
    - now apply round_mask_value.
    - apply round_canvas_outside_icon.
    - now apply round_pixel. }
  repeat (apply Forall_cons || apply Forall_nil);
    (split; [|split; [reflexivity|split; [reflexivity|apply Hpix]]]).
  - apply (nth_error_In _ 10). reflexivity.
  - apply (nth_error_In _ 14). reflexivity.
  - apply (nth_error_In _ 18). reflexivity.
  - apply (nth_error_In _ 22). reflexivity.
  - apply (nth_error_In _ 26). reflexivity.
Qed.

Lemma sample_rasterize_bytes (s : sample_svg) (w h x y : Z) :
  rgba_bytes (sample_rasterize s w h x y) = true.
Proof.
  unfold sample_rasterize. destruct s, (Z.even (x + y)); reflexivity.
Defined.

Lemma C8_witness :
  Forall (fun '(folder, size) =>
    let fg := tier_fg sample_rasterize SAMPLE_ICON size in
    let offset := tier_offset size in
    let canvas := tier_round_canvas sample_rasterize SAMPLE_ICON size in
    let round := tier_round sample_rasterize sample_ellipse SAMPLE_ICON size in
    In (Wrote (path_join ANDROID_RES [folder; "ic_launcher_round.png"])
              round)
       (log (snd (run sample_rasterize sample_lanczos sample_ellipse
                      (Some SAMPLE_LOGO) (Some SAMPLE_ICON))))
    /\ canvas = paste (Image_new RGBA (size, size) WHITE_RGBA) fg
                      (offset, offset) fg
    /\ round = paste (Image_new RGBA (size, size) CLEAR_RGBA) canvas (0, 0)
                     (round_mask sample_ellipse size)
    /\ forall x y,
         in_bounds round x y = true ->
         mask_value (round_mask sample_ellipse size) x y
         = (if sample_ellipse (0, 0, size, size) x y then 255 else 0)
         /\ (in_bounds fg (x - offset) (y - offset) = false ->
             im_px canvas x y = WHITE_RGBA)
         /\ im_px round x y
            = if sample_ellipse (0, 0, size, size) x y
              then im_px canvas x y
              else CLEAR_RGBA)
    MIPMAP_SIZES.
Proof.
  apply (C8_round_variant_white_backed sample_svg sample_rasterize
           sample_lanczos sample_ellipse SAMPLE_LOGO SAMPLE_ICON).
  exact sample_rasterize_bytes.
Defined.

Example sample_round_pixels :
  map (fun '(x, y) =>
         im_px (tier_round sample_rasterize sample_ellipse SAMPLE_ICON 48) x y)
      [(0, 0); (24, 2); (24, 24); (24, 25)]
  = [CLEAR_RGBA; WHITE_RGBA; [0; 104; 71; 255]; WHITE_RGBA].
Proof. vm_compute. reflexivity. Qed.

End IconsSpec.

(* ================================================================== *)
(** ** generate_logos.py: further properties of the code *)
(* ================================================================== *)

Module LogosExtra.
Import Py PyFacts GenerateLogos LogosFacts.

(** *** strip *)

Lemma lstrip_head (s : str) (c : char) (r : str) :
  lstrip s = c :: r -> isspace c = false.
Proof.
  induction s as [|x s IH]; simpl; [discriminate|].
  destruct (isspace x) eqn:E; auto.
  intros [= <- _]. exact E.
Qed.

Lemma lstrip_fixed (c : char) (r : str) :
  isspace c = false -> lstrip (c :: r) = c :: r.
Proof. intros H. simpl. now rewrite H. Qed.

Lemma lstrip_idem (s : str) : lstrip (lstrip s) = lstrip s.
Proof.
  destruct (lstrip s) as [|c r] eqn:E; [reflexivity|].
  apply lstrip_fixed. now apply (lstrip_head s c r).
Qed.

Lemma rstrip_idem (s : str) : rstrip (rstrip s) = rstrip s.
Proof. unfold rstrip. now rewrite rev_involutive, lstrip_idem. Qed.

Lemma rstrip_split (s : str) :
  exists b, s = rstrip s ++ b /\ forallb isspace b = true.
Proof.
  unfold rstrip. destruct (lstrip_split (rev s)) as [a [Ha Hs]].
  exists (rev a). split.
  - rewrite <- (rev_involutive s) at 1. rewrite Ha at 1.
    now rewrite rev_app_distr.
  - rewrite forallb_forall in *. intros x Hx. apply Hs. now apply in_rev.
Qed.

Lemma rstrip_keeps_head (c : char) (r : str) :
  isspace c = false -> exists r', rstrip (c :: r) = c :: r'.
Proof.
  intros Hc. destruct (rstrip_split (c :: r)) as [b [Hb Hs]].
  destruct (rstrip (c :: r)) as [|c' r'] eqn:E.
  - simpl in Hb. subst b. simpl in Hs. now rewrite Hc in Hs.
  - simpl in Hb. injection Hb as <- _. now exists r'.
Qed.

Lemma strip_head (s : str) (c : char) (r : str) :
  strip s = c :: r -> isspace c = false.
Proof.
  unfold strip. destruct (lstrip s) as [|x t] eqn:E.
  - discriminate.
  - pose proof (lstrip_head s x t E) as Hx.
    destruct (rstrip_keeps_head x t Hx) as [r' ->].
    now intros [= <- _].
Qed.

Lemma strip_last (s : str) (c : char) (r : str) :
  strip s = r ++ [c] -> isspace c = false.
Proof.
  unfold strip, rstrip. intros H.
  apply (f_equal (@rev char)) in H.
  rewrite rev_involutive, rev_app_distr in H. simpl in H.
  now apply lstrip_head in H.
Qed.

Lemma strip_idem (s : str) : strip (strip s) = strip s.
Proof.
  unfold strip at 1. fold (strip s).
  assert (H : lstrip (strip s) = strip s).
  { destruct (strip s) as [|c r] eqn:E; [reflexivity|].
    apply lstrip_fixed. now apply (strip_head s c r). }
  rewrite H. unfold strip. apply rstrip_idem.
Qed.

(** *** The loop, in closed form *)

Lemma kept_pairs_In (rows : list (dict cell)) (name url : str) :
  In (name, url) (kept_pairs rows)
  <-> exists row, In row rows /\ retained row name url.
Proof.
  unfold kept_pairs, retained. rewrite in_flat_map. split.
  - intros [row [Hin Hp]]. exists row. split; [assumption|].
    destruct (read_row row) as [e|[n v]]; [destruct Hp|].
    destruct (url_ok v) eqn:E; [|destruct Hp].
    destruct Hp as [[= -> ->]|[]]. auto.
  - intros [row [Hin [Hr Hok]]]. exists row. split; [assumption|].
    rewrite Hr, Hok. now left.
Qed.

Lemma load_rows_total (rows : list (dict cell)) (d0 : dict str) :
  (forall row, In row rows -> exists p, read_row row = inr p) ->
  exists d, load_rows rows d0 = inr d.
Proof.
  revert d0; induction rows as [|r rows IH]; intros d0 Hall; simpl.
  - eauto.
  - destruct (Hall r (or_introl eq_refl)) as [[n v] ->].
    apply IH. intros row Hrow. apply Hall. now right.
Qed.

Lemma load_rows_length (rows : list (dict cell)) (d0 d : dict str) :
  load_rows rows d0 = inr d ->
  (List.length d <= List.length d0 + List.length rows)%nat.
Proof.
  revert d0; induction rows as [|r rows IH]; intros d0; simpl.
  - intros [= ->]. lia.
  - destruct (read_row r) as [e|[n v]]; [discriminate|].
    intros H. apply IH in H.
    assert (Hs : forall (m : dict str) k w,
               (List.length (dict_set m k w) <= S (List.length m))%nat).
    { induction m as [|[k0 w0] m IHm]; intros k w; simpl; [lia|].
      destruct (str_eqb k0 k); simpl; [lia|]. specialize (IHm k w). lia. }
    destruct (url_ok v); [specialize (Hs d0 n v)|]; lia.
Qed.

(** *** X1-X3 *)

(** X1.  The sanitised key holds ASCII letters and digits only, so it
    never contains a quote, a backslash or a line break; sanitising is
    idempotent, never lengthens the name, and distributes over
    concatenation. *)
Theorem X1_short_key_shape :
  forall name : str,
    Forall (fun c => is_ascii_alnum c = true) (short_key name)
    /\ (forall c, In c [39; 34; 92; 10; 13; 32]%N -> ~ In c (short_key name))
    /\ short_key (short_key name) = short_key name
    /\ (List.length (short_key name) <= List.length name)%nat
    /\ forall a b, short_key (a ++ b) = short_key a ++ short_key b.
Proof.
  intros name.
  assert (Hall : Forall (fun c => is_ascii_alnum c = true) (short_key name)).
  { rewrite short_key_alnum. unfold alnum_only. apply Forall_forall.
    intros c Hc. now apply filter_In in Hc. }
  split; [exact Hall|]. split; [|split; [|split]].
  - intros c Hc Hin. rewrite Forall_forall in Hall. apply Hall in Hin.
    simpl in Hc.
    repeat (destruct Hc as [<-|Hc]; [discriminate Hin|]). destruct Hc.
  - rewrite !short_key_alnum. unfold alnum_only. clear Hall.
    induction name as [|c s IH]; simpl; auto.
    destruct (is_ascii_alnum c) eqn:E; simpl; [rewrite E|]; now rewrite ?IH.
  - rewrite short_key_alnum. apply filter_length_le.
  - intros a b. rewrite !short_key_alnum. apply filter_app.
Qed.

(** X2.  Every entry of the mapping is clean: its URL passed the filter,
    is not empty and is already stripped, and its name is stripped,
    beginning and ending with a character that is not whitespace. *)
Theorem X2_entries_are_clean :
  forall (f : csv_rows) universities name url,
    load_rows (DictReader f) [] = inr universities ->
    In (name, url) universities ->
    url_ok url = true /\ url <> [] /\ strip url = url
    /\ strip name = name
    /\ (forall c r, name = c :: r -> isspace c = false)
    /\ (forall c r, name = r ++ [c] -> isspace c = false).
Proof.
  intros f universities name url Hload Hin.
  destruct (loaded_from_row f universities Hload name url Hin)
    as [row [_ [Hread Hok]]].
  apply read_row_url in Hread as [raw [c [_ [_ [-> ->]]]]].
  split; [exact Hok|]. split; [|split; [|split; [|split]]].
  - intros E. rewrite E in Hok. discriminate.
  - destruct c as [raw_url|]; simpl; [apply strip_idem | reflexivity].
  - apply strip_idem.
  - intros c0 r E. now apply (strip_head raw c0 r).
  - intros c0 r E. now apply (strip_last raw c0 r).
Qed.

Lemma X2_witness :
  url_ok (u "https://a.example/k.png") = true
  /\ u "https://a.example/k.png" <> []
  /\ strip (u "https://a.example/k.png") = u "https://a.example/k.png"
  /\ strip (u "Aga Khan") = u "Aga Khan"
  /\ (forall c r, u "Aga Khan" = c :: r -> isspace c = false)
  /\ (forall c r, u "Aga Khan" = r ++ [c] -> isspace c = false).
Proof.
  apply (X2_entries_are_clean sample_csv sample_universities).
  - reflexivity.
  - right. left. reflexivity.
Defined.

(** *** Line breaks in the written text *)

Lemma newlines_app (a b : str) : newlines (a ++ b) = (newlines a + newlines b)%nat.
Proof. apply count_occ_app. Qed.

Lemma newlines_join (l : list str) :
  l <> [] ->
  newlines (join NL l)
  = (List.length l - 1 + list_sum (map newlines l))%nat.
Proof.
  induction l as [|x l IH]; [contradiction|]. intros _.
  destruct l as [|y l].
  - simpl. lia.
  - change (join NL (x :: y :: l)) with (x ++ NL ++ join NL (y :: l)).
    rewrite !newlines_app, IH by discriminate.
    change (newlines NL) with 1%nat.
    cbn [map list_sum fold_right List.length]. lia.
Qed.

Lemma newlines_short_key (name : str) : newlines (short_key name) = 0%nat.
Proof.
  unfold newlines. apply count_occ_not_In.
  rewrite short_key_alnum. unfold alnum_only. intros Hin.
  apply filter_In in Hin as [_ Hin]. discriminate Hin.
Qed.

Lemma newlines_entry_line (name url : str) :
  newlines (entry_line name url) = newlines url.
Proof.
  unfold entry_line. rewrite !newlines_app, newlines_short_key.
  change (newlines (u "  '")) with 0%nat.
  change (newlines (u "': '")) with 0%nat.
  change (newlines (u "',")) with 0%nat. lia.
Qed.

Lemma list_sum_perm (l l' : list nat) :
  Permutation l l' -> list_sum l = list_sum l'.
Proof.
  induction 1 as [|x l l' _ IH|x y l|l l' l'' _ IH1 _ IH2]; simpl; lia.
Qed.

Lemma newlines_entries (d : dict str) :
  list_sum (map newlines (entries d))
  = list_sum (map (fun p => newlines (snd p)) d).
Proof.
  unfold entries. rewrite map_map.
  rewrite (list_sum_perm _ (map (fun p => newlines (snd p)) (sorted_items d))).
  - apply list_sum_perm, Permutation_map, sorted_items_perm.
  - assert (E : forall l : list (str * str),
               map (fun x => newlines (let '(name, url) := x in
                                       entry_line name url)) l
               = map (fun p => newlines (snd p)) l).
    { induction l as [|[n v] l IH]; simpl; [reflexivity|].
      now rewrite newlines_entry_line, IH. }
    now rewrite E.
Qed.

Lemma newlines_written (d : dict str) :
  newlines (join NL (generate_lines d))
  = (List.length d + 5 + list_sum (map (fun p => newlines (snd p)) d))%nat.
Proof.
  rewrite newlines_join.
  - unfold generate_lines.
    rewrite !length_app, !map_app, !list_sum_app, entries_length,
      newlines_entries.
    change (list_sum (map newlines HEADER)) with 0%nat.
    change (list_sum (map newlines [u "};"])) with 0%nat.
    change (List.length HEADER) with 5%nat. simpl List.length. lia.
  - unfold generate_lines, HEADER. discriminate.
Qed.

(** X3.  The names of the mapping are exactly the distinct names of the
    retained rows, each once; so the count the script prints is the
    number of distinct retained names and is at most the number of data
    rows.  The script joins that many lines plus six, and the text it
    writes holds that many line breaks plus five, plus the line breaks
    inside the URLs (the keys hold none): as many lines as the count
    plus six when no URL holds a line break. *)
Theorem X3_count_is_distinct_names :
  forall (f : csv_rows) universities,
    load_rows (DictReader f) [] = inr universities ->
    NoDup (keys universities)
    /\ Permutation (keys universities)
         (nodup str_eq_dec (map fst (kept_pairs (DictReader f))))
    /\ List.length universities
       = List.length (nodup str_eq_dec (map fst (kept_pairs (DictReader f))))
    /\ (List.length universities <= List.length (DictReader f))%nat
    /\ List.length (generate_lines universities)
       = (List.length universities + 6)%nat
    /\ In (FileWrite OUT_PATH (join NL (generate_lines universities)))
          (report universities)
    /\ newlines (join NL (generate_lines universities))
       = (List.length universities + 5
          + list_sum (map (fun p => newlines (snd p)) universities))%nat
    /\ ((forall name url, In (name, url) universities -> newlines url = 0%nat)
        -> newlines (join NL (generate_lines universities))
           = (List.length universities + 5)%nat).
Proof.
  intros f universities Hload.
  pose proof (loaded_NoDup f universities Hload) as Hnd.
  assert (Hperm : Permutation (keys universities)
            (nodup str_eq_dec (map fst (kept_pairs (DictReader f))))).
  { apply NoDup_Permutation; [assumption | apply NoDup_nodup|].
    intros n. rewrite nodup_In, in_map_iff. split.
    - intros Hn. unfold keys in Hn.
      apply in_map_iff in Hn as [[n' url] [Hn' Hin]]. simpl in Hn'; subst n'.
      exists (n, url). split; [reflexivity|].
      apply kept_pairs_In. now apply (loaded_from_row f universities).
    - intros [[n' url] [Hn' Hin]]. simpl in Hn'; subst n'.
      apply kept_pairs_In in Hin as [row [Hrow Hret]].
      now apply (load_rows_complete _ _ _ Hload row n url). }
  split; [assumption|]. split; [assumption|].
  split; [|split; [|split; [|split; [|split]]]].
  - rewrite <- (Permutation_length Hperm). unfold keys. now rewrite length_map.
  - apply load_rows_length in Hload. simpl in Hload. lia.
  - unfold generate_lines. rewrite !length_app, entries_length. simpl. lia.
  - unfold report. apply in_or_app. right. apply in_or_app. right.
    apply in_or_app. right. apply in_or_app. right. now left.
  - apply newlines_written.
  - intros Hnone. rewrite newlines_written.
    assert (E : list_sum (map (fun p => newlines (snd p)) universities)
                = 0%nat).
    { clear - Hnone. induction universities as [|[n v] d IH]; simpl; auto.
      rewrite (Hnone n v (or_introl eq_refl)), IH; auto.
      intros n' v' Hin. apply (Hnone n' v'). now right. }
    lia.
Qed.

Lemma X3_witness :
  NoDup (keys sample_universities)
  /\ Permutation (keys sample_universities)
       (nodup str_eq_dec (map fst (kept_pairs (DictReader sample_csv))))
  /\ List.length sample_universities
     = List.length (nodup str_eq_dec
                      (map fst (kept_pairs (DictReader sample_csv))))
  /\ (List.length sample_universities
      <= List.length (DictReader sample_csv))%nat
  /\ List.length (generate_lines sample_universities)
     = (List.length sample_universities + 6)%nat
  /\ In (FileWrite OUT_PATH (join NL (generate_lines sample_universities)))
        (report sample_universities)
  /\ newlines (join NL (generate_lines sample_universities))
     = (List.length sample_universities + 5
        + list_sum (map (fun p => newlines (snd p)) sample_universities))%nat
  /\ ((forall name url,
         In (name, url) sample_universities -> newlines url = 0%nat)
      -> newlines (join NL (generate_lines sample_universities))
         = (List.length sample_universities + 5)%nat).
Proof.
  apply (X3_count_is_distinct_names sample_csv sample_universities).
  reflexivity.
Defined.

Example newlines_inside_a_url :
  url_ok (u "https://a.example/x" ++ NL ++ u "y.png") = true
  /\ newlines (join NL (generate_lines
                 [(u "A", u "https://a.example/x" ++ NL ++ u "y.png")]))
     = 7%nat.
Proof. split; reflexivity. Qed.

(** *** The reader and blank lines *)

Lemma filter_all_blank (rest : list (list str)) :
  (forall row, In row rest -> row = []) ->
  filter (fun row => negb (is_blank row)) rest = [].
Proof.
  induction rest as [|r rest IH]; intros Hall; simpl; auto.
  rewrite (Hall r (or_introl eq_refl)). simpl.
  apply IH. intros row Hrow. apply Hall. now right.
Qed.

Lemma filter_blanks_then_row (blanks : list (list str)) (row : list str)
      (rest : list (list str)) :
  (forall b, In b blanks -> b = []) -> row <> [] ->
  filter (fun row => negb (is_blank row)) (blanks ++ row :: rest)
  = row :: filter (fun row => negb (is_blank row)) rest.
Proof.
  intros Hb Hrow. rewrite filter_app, (filter_all_blank blanks Hb). simpl.
  destruct row; [contradiction | reflexivity].
Qed.

Lemma written_report (d : dict str) :
  written OUT_PATH (report d) = Some (join NL (generate_lines d)).
Proof.
  unfold report.
  assert (Hw : forall pre t,
             written OUT_PATH (map Stdout pre ++ t) = written OUT_PATH t).
  { induction pre as [|x pre IH]; intros; simpl; auto. }
  cbn [app written]. rewrite Hw. cbn [written]. rewrite Hw.
  reflexivity.
Qed.

Lemma main_reading_parsed (f : csv_rows) :
  main_reading (Some {| yielded := f; reader_failure := None |})
  = (fst (main (Some f)), option_map RowError (snd (main (Some f)))).
Proof.
  unfold main_reading, main. cbn [yielded reader_failure].
  now destruct (load_rows (DictReader f) []).
Qed.



Example header_only_is_accepted :
  main_reading (Some {| yielded := [[u "id"; u "title"]];
                        reader_failure := None |})
  = (report [], None).
Proof. reflexivity. Qed.

(** X5.  With a data line present, a header without 'university_name'
    ends the run with KeyError 'university_name', also when 'logo_url'
    is missing too; a header without 'logo_url' ends it with KeyError
    'logo_url' when the line has a name cell.  Nothing is printed or
    written. *)
Theorem X5_missing_column_is_KeyError :
  forall fieldnames blanks row rest,
    (forall b, In b blanks -> b = []) ->
    row <> [] ->
    (~ In (u "university_name") fieldnames ->
     main (Some (fieldnames :: blanks ++ row :: rest))
     = ([], Some (KeyError (u "university_name"))))
    /\ (forall raw_name,
          dict_get (zip_row fieldnames row []) (u "university_name")
          = Some (Some raw_name) ->
          ~ In (u "logo_url") fieldnames ->
          main (Some (fieldnames :: blanks ++ row :: rest))
          = ([], Some (KeyError (u "logo_url")))).
Proof.
  intros fieldnames blanks row rest Hb Hrow.
  unfold main, DictReader.
  rewrite (filter_blanks_then_row blanks row rest Hb Hrow).
  cbn [map load_rows]. unfold read_row. split.
  - intros Hn. now rewrite (zip_row_get fieldnames row [] _ Hn).
  - intros raw_name Hname Hu.
    now rewrite Hname, (zip_row_get fieldnames row [] _ Hu).
Qed.

Lemma X5_witness :
  (~ In (u "university_name") [u "name"; u "logo"] ->
   main (Some ([u "name"; u "logo"] :: [[]] ++ [u "A"; u "B"] :: []))
   = ([], Some (KeyError (u "university_name"))))
  /\ (forall raw_name,
        dict_get (zip_row [u "name"; u "logo"] [u "A"; u "B"] [])
                 (u "university_name")
        = Some (Some raw_name) ->
        ~ In (u "logo_url") [u "name"; u "logo"] ->
        main (Some ([u "name"; u "logo"] :: [[]] ++ [u "A"; u "B"] :: []))
        = ([], Some (KeyError (u "logo_url")))).
Proof.
  apply (X5_missing_column_is_KeyError [u "name"; u "logo"] [[]]
           [u "A"; u "B"] []).
  - intros b [<-|[]]. reflexivity.
  - discriminate.
Defined.

(** *** The loop as a fold over the retained pairs *)

Lemma load_rows_fold (rows : list (dict cell)) (d0 d : dict str) :
  load_rows rows d0 = inr d ->
  d = fold_left (fun m '(name, url) => dict_set m name url)
                (kept_pairs rows) d0.
Proof.
  revert d0; induction rows as [|r rows IH]; intros d0; simpl.
  - now intros [= ->].
  - unfold kept_pairs. cbn [flat_map]. fold (kept_pairs rows).
    destruct (read_row r) as [e|[n v]]; [discriminate|].
    intros H. rewrite fold_left_app.
    destruct (url_ok v); simpl; now apply IH.
Qed.




Example one_cell_line_is_skipped :
  main_reading (Some {| yielded := [ STANDARD_HEADER; [u "No Logo"];
                                     [u "A"; u " https://a.example "] ];
                        reader_failure := None |})
  = (report [(u "A", u "https://a.example")], None).
Proof. reflexivity. Qed.

(** X7.  The first data line that cannot be read ends the run with its
    exception: nothing is printed or written, and the lines after it are
    not examined. *)
Theorem X7_first_failing_row_aborts :
  forall (f : csv_rows) r1 row r2 e,
    DictReader f = r1 ++ row :: r2 ->
    (forall r, In r r1 -> exists p, read_row r = inr p) ->
    read_row row = inl e ->
    main (Some f) = ([], Some e).
Proof.
  intros f r1 row r2 e Hsplit Hok Hbad. unfold main. rewrite Hsplit.
  assert (H : forall d0, load_rows (r1 ++ row :: r2) d0 = inl e).
  { clear Hsplit. induction r1 as [|r r1 IH]; intros d0; simpl.
    - now rewrite Hbad.
    - destruct (Hok r (or_introl eq_refl)) as [[n v] ->].
      apply IH. intros r' Hr'. apply Hok. now right. }
  now rewrite H.
Qed.

Lemma X7_witness :
  main (Some [ [u "logo_url"; u "university_name"];
               [u "https://a.example/k.png"; u "Aga Khan"];
               [u "https://b.example/x.png"];
               [u "https://c.example/y.png"; u "C"] ])
  = ([], Some AttributeError).
Proof.
  apply (X7_first_failing_row_aborts _
           [zip_row [u "logo_url"; u "university_name"]
                    [u "https://a.example/k.png"; u "Aga Khan"] []]
           (zip_row [u "logo_url"; u "university_name"]
                    [u "https://b.example/x.png"] [])
           [zip_row [u "logo_url"; u "university_name"]
                    [u "https://c.example/y.png"; u "C"] []]).
  - reflexivity.
  - intros r [<-|[]]. eexists. reflexivity.
  - reflexivity.
Defined.

Lemma zip_row_short (pre post : list str) (k : str) :
  ~ In k post ->
  forall (row : list str) (d : dict cell),
    (List.length row <= List.length pre)%nat ->
    dict_get (zip_row (pre ++ k :: post) row d) k = Some None.
Proof.
  intros Hpost. induction pre as [|p pre IH]; intros row d Hlen.
  - destruct row; [|simpl in Hlen; lia]. simpl.
    rewrite zip_row_get by assumption. apply dict_get_set_same.
  - destruct row as [|v vs]; simpl; apply IH; simpl in *; lia.
Qed.

(** X10.  A data line too short to reach the 'university_name' column
    (the column's cell is [None]) ends the run with AttributeError,
    nothing printed or written; a line that has a name cell but is too
    short to reach 'logo_url' is read without error, with an empty URL,
    and is only skipped: the loop goes on with the mapping unchanged. *)
Theorem X10_short_row_without_name :
  forall pre post blanks row rest,
    ~ In (u "university_name") post ->
    (forall b, In b blanks -> b = []) ->
    row <> [] ->
    (List.length row <= List.length pre)%nat ->
    main (Some ((pre ++ u "university_name" :: post)
                  :: blanks ++ row :: rest))
    = ([], Some AttributeError)
    /\ forall pre' post' row' raw_name,
         ~ In (u "logo_url") post' ->
         (List.length row' <= List.length pre')%nat ->
         dict_get (zip_row (pre' ++ u "logo_url" :: post') row' [])
                  (u "university_name") = Some (Some raw_name) ->
         read_row (zip_row (pre' ++ u "logo_url" :: post') row' [])
         = inr (strip raw_name, [])
         /\ url_ok [] = false
         /\ forall rows universities,
              load_rows (zip_row (pre' ++ u "logo_url" :: post') row' []
                           :: rows) universities
              = load_rows rows universities.
Proof.
  intros pre post blanks row rest Hpost Hb Hrow Hlen. split.
  - unfold main, DictReader.
    rewrite (filter_blanks_then_row blanks row rest Hb Hrow).
    cbn [map load_rows]. unfold read_row.
    now rewrite (zip_row_short pre post _ Hpost row [] Hlen).
  - intros pre' post' row' raw_name Hpost' Hlen' Hname.
    assert (Hread : read_row (zip_row (pre' ++ u "logo_url" :: post') row' [])
                    = inr (strip raw_name, [])).
    { unfold read_row.
      now rewrite Hname, (zip_row_short pre' post' _ Hpost' row' [] Hlen'). }
    split; [exact Hread|]. split; [reflexivity|].
    intros rows universities. cbn [load_rows]. now rewrite Hread.
Qed.

Lemma X10_witness :
  main (Some (([u "logo_url"] ++ u "university_name" :: [u "city"])
                :: [[]] ++ [u "https://b.example/x.png"] :: []))
  = ([], Some AttributeError)
  /\ (read_row (zip_row ([u "university_name"] ++ u "logo_url" :: [])
                        [u "No Logo"] [])
      = inr (strip (u "No Logo"), [])
      /\ url_ok [] = false
      /\ forall rows universities,
           load_rows (zip_row ([u "university_name"] ++ u "logo_url" :: [])
                              [u "No Logo"] [] :: rows) universities
           = load_rows rows universities).
Proof.
  assert (H := X10_short_row_without_name [u "logo_url"] [u "city"] [[]]
                 [u "https://b.example/x.png"] []).
  destruct H as [H1 H2].
  - intros [H|[]]. discriminate H.
  - intros b [<-|[]]. reflexivity.
  - discriminate.
  - simpl. lia.
  - split; [exact H1|].
    apply (H2 [u "university_name"] [] [u "No Logo"] (u "No Logo")).
    + intros [].
    + simpl. lia.
    + reflexivity.
Defined.

(** *** Distinct names: the dict is the list of retained pairs *)

Lemma dict_set_fresh (d : dict str) (k v : str) :
  ~ In k (keys d) -> dict_set d k v = d ++ [(k, v)].
Proof.
  induction d as [|[k0 v0] d IH]; simpl; intros Hk; [reflexivity|].
  destruct (str_eqb k0 k) eqn:E.
  - apply str_eqb_eq in E. tauto.
  - rewrite IH; tauto.
Qed.

Lemma fold_set_fresh (pairs : list (str * str)) (d0 : dict str) :
  NoDup (keys d0 ++ map fst pairs) ->
  fold_left (fun m '(name, url) => dict_set m name url) pairs d0
  = d0 ++ pairs.
Proof.
  revert d0; induction pairs as [|[k v] ps IH]; intros d0 Hnd; simpl.
  - now rewrite app_nil_r.
  - simpl in Hnd. rewrite dict_set_fresh.
    + rewrite IH.
      * now rewrite <- app_assoc.
      * unfold keys. rewrite map_app, <- app_assoc. exact Hnd.
    + apply NoDup_remove_2 in Hnd. intros Hin. apply Hnd.
      apply in_or_app. now left.
Qed.

Lemma filter_perm {A} (p : A -> bool) (l l' : list A) :
  Permutation l l' -> Permutation (filter p l) (filter p l').
Proof.
  induction 1 as [|x l l' _ IH|x y l|l l' l'' _ IH1 _ IH2]; simpl.
  - constructor.
  - destruct (p x); auto.
  - destruct (p x), (p y); auto. apply perm_swap.
  - now transitivity (filter p l').
Qed.

Lemma DictReader_perm (header : list str) (data1 data2 : list (list str)) :
  Permutation data1 data2 ->
  Permutation (DictReader (header :: data1)) (DictReader (header :: data2)).
Proof. intros H. unfold DictReader. now apply Permutation_map, filter_perm. Qed.

(** Two strictly sorted lists with the same members are the same list. *)
Lemma sorted_unique {A} (R : A -> A -> Prop) (l1 l2 : list A) :
  (forall x y, R x y -> R y x -> False) ->
  StronglySorted R l1 -> StronglySorted R l2 -> Permutation l1 l2 ->
  l1 = l2.
Proof.
  intros Hasym. revert l2; induction l1 as [|a l1 IH]; intros l2 Hs1 Hs2 Hp.
  - now apply Permutation_nil in Hp.
  - destruct l2 as [|b l2].
    + apply Permutation_sym, Permutation_nil in Hp. discriminate.
    + inversion Hs1 as [|? ? Hs1' Hall1]; subst.
      inversion Hs2 as [|? ? Hs2' Hall2]; subst.
      rewrite Forall_forall in Hall1, Hall2.
      assert (Hab : a = b).
      { assert (Ha : In a (b :: l2)).
        { apply (Permutation_in _ Hp). now left. }
        assert (Hb : In b (a :: l1)).
        { apply (Permutation_in _ (Permutation_sym Hp)). now left. }
        destruct Ha as [Ha|Ha]; [now symmetry|].
        destruct Hb as [Hb|Hb]; [assumption|].
        exfalso. apply (Hasym a b); auto. }
      subst b. f_equal. apply IH; auto.
      now apply Permutation_cons_inv in Hp.
Qed.

Lemma name_lt_asym (p q : str * str) : name_lt p q -> name_lt q p -> False.
Proof.
  unfold name_lt. intros H1 H2.
  rewrite (str_compare_antisym (fst p) (fst q)), H1 in H2. discriminate.
Qed.

Lemma sorted_items_canonical (d1 d2 : dict str) :
  NoDup (keys d1) -> Permutation d1 d2 -> sorted_items d1 = sorted_items d2.
Proof.
  intros Hnd Hp.
  assert (Hnd2 : NoDup (keys d2)).
  { eapply Permutation_NoDup; [|exact Hnd]. now apply Permutation_map. }
  apply (sorted_unique name_lt); auto using sorted_items_by_name.
  - exact name_lt_asym.
  - rewrite (sorted_items_perm d1), Hp. symmetry. apply sorted_items_perm.
Qed.

(** X8.  When the retained names are pairwise distinct, the order of
    the data lines does not matter: any reordering of them loads too,
    gives the same entries, and writes the same file. *)
Theorem X8_row_order_is_irrelevant :
  forall header data1 data2 d1,
    Permutation data1 data2 ->
    load_rows (DictReader (header :: data1)) [] = inr d1 ->
    NoDup (map fst (kept_pairs (DictReader (header :: data1)))) ->
    exists d2,
      load_rows (DictReader (header :: data2)) [] = inr d2
      /\ Permutation d1 d2
      /\ generate_lines d2 = generate_lines d1
      /\ written OUT_PATH (fst (main (Some (header :: data2))))
         = written OUT_PATH (fst (main (Some (header :: data1)))).
Proof.
  intros header data1 data2 d1 Hperm Hload Hnd.
  pose proof (DictReader_perm header data1 data2 Hperm) as Hrows.
  destruct (load_rows_total (DictReader (header :: data2)) []) as [d2 Hload2].
  { intros row Hrow.
    apply (Permutation_in _ (Permutation_sym Hrows)) in Hrow.
    destruct (load_rows_reads _ _ _ Hload row Hrow) as [n [v Hr]].
    now exists (n, v). }
  assert (Hk : Permutation (kept_pairs (DictReader (header :: data1)))
                           (kept_pairs (DictReader (header :: data2)))).
  { unfold kept_pairs. now apply Permutation_flat_map. }
  assert (E1 : d1 = kept_pairs (DictReader (header :: data1))).
  { rewrite (load_rows_fold _ _ _ Hload). now apply fold_set_fresh. }
  assert (E2 : d2 = kept_pairs (DictReader (header :: data2))).
  { rewrite (load_rows_fold _ _ _ Hload2). apply fold_set_fresh. simpl.
    eapply Permutation_NoDup; [|exact Hnd]. now apply Permutation_map. }
  assert (Hd : Permutation d1 d2) by now rewrite E1, E2.
  assert (Hlines : generate_lines d2 = generate_lines d1).
  { unfold generate_lines, entries.
    rewrite (sorted_items_canonical d1 d2); auto.
    rewrite E1. exact Hnd. }
  exists d2. repeat split; auto.
  unfold main. rewrite Hload, Hload2. cbn [fst].
  now rewrite !written_report, Hlines.
Qed.

Lemma X8_witness :
  exists d2,
    load_rows (DictReader (STANDARD_HEADER
                 :: [ [u "B"; u "https://b.example"];
                      [u "A"; u "https://a.example"] ])) [] = inr d2
    /\ Permutation [ (u "A", u "https://a.example");
                     (u "B", u "https://b.example") ] d2
    /\ generate_lines d2
       = generate_lines [ (u "A", u "https://a.example");
                          (u "B", u "https://b.example") ]
    /\ written OUT_PATH
         (fst (main (Some (STANDARD_HEADER
                 :: [ [u "B"; u "https://b.example"];
                      [u "A"; u "https://a.example"] ]))))
       = written OUT_PATH
           (fst (main (Some (STANDARD_HEADER
                   :: [ [u "A"; u "https://a.example"];
                        [u "B"; u "https://b.example"] ])))).
Proof.
  apply (X8_row_order_is_irrelevant STANDARD_HEADER
           [ [u "A"; u "https://a.example"]; [u "B"; u "https://b.example"] ]
           [ [u "B"; u "https://b.example"]; [u "A"; u "https://a.example"] ]).
  - apply perm_swap.
  - reflexivity.
  - repeat constructor; simpl; intuition discriminate.
Defined.

(** X9.  The two previews the script prints are slices of all the
    lines, not of the entries: "First 5 entries" shows the first five
    of the entries followed by the closing line, "Last 5 entries" the
    last five of the header followed by the entries.  With five entries
    or more they are the first and the last five entries; with fewer,
    the first preview contains the closing line and the second the
    header's blank line. *)
Theorem X9_previews_are_line_slices :
  forall universities : dict str,
    let lines := generate_lines universities in
    let n := List.length universities in
    slice lines 5 10 = firstn 5 (entries universities ++ [u "};"])
    /\ slice lines (-6) (-1) = skipn n (HEADER ++ entries universities)
    /\ ((5 <= n)%nat ->
        slice lines 5 10 = firstn 5 (entries universities)
        /\ slice lines (-6) (-1) = skipn (n - 5) (entries universities))
    /\ ((n < 5)%nat ->
        In (u "};") (slice lines 5 10)
        /\ In [] (slice lines (-6) (-1))).
Proof.
  intros universities lines n.
  pose proof (entries_length universities) as Hlen. fold n in Hlen.
  assert (Hlines : List.length lines = (n + 6)%nat).
  { unfold lines, generate_lines. rewrite !length_app, Hlen. simpl. lia. }
  assert (H1 : slice lines 5 10
               = firstn 5 (entries universities ++ [u "};"])).
  { unfold slice, clamp_index. rewrite Hlines. cbn [Z.ltb Z.compare].
    replace (Z.to_nat (Z.min (Z.of_nat (n + 6)) 5)) with 5%nat by lia.
    unfold lines, generate_lines.
    rewrite skipn_app. change (skipn 5 HEADER) with (@nil str).
    change (5 - List.length HEADER)%nat with 0%nat. cbn [skipn app].
    destruct (Nat.le_gt_cases 5 (n + 1)) as [Hge|Hlt].
    - f_equal. lia.
    - rewrite !firstn_all2; auto; rewrite length_app, Hlen; simpl; lia. }
  assert (H2 : slice lines (-6) (-1)
               = skipn n (HEADER ++ entries universities)).
  { unfold slice, clamp_index. rewrite Hlines. cbn [Z.ltb Z.compare].
    replace (Z.to_nat (Z.max 0 (Z.of_nat (n + 6) + -6))) with n by lia.
    replace (Z.to_nat (Z.max 0 (Z.of_nat (n + 6) + -1)
                       - Z.max 0 (Z.of_nat (n + 6) + -6))) with 5%nat by lia.
    unfold lines, generate_lines. rewrite app_assoc, skipn_app.
    assert (Hl : List.length (HEADER ++ entries universities) = (n + 5)%nat).
    { rewrite length_app, Hlen. simpl. lia. }
    rewrite Hl. replace (n - (n + 5))%nat with 0%nat by lia. cbn [skipn].
    rewrite firstn_app, length_skipn, Hl.
    replace (5 - (n + 5 - n))%nat with 0%nat by lia.
    rewrite firstn_O, app_nil_r.
    apply firstn_all2. rewrite length_skipn, Hl. lia. }
  split; [exact H1|]. split; [exact H2|]. split.
  - intros Hn. rewrite H1, H2. split.
    + rewrite firstn_app, Hlen.
      replace (5 - n)%nat with 0%nat by lia.
      now rewrite firstn_O, app_nil_r.
    + rewrite skipn_app. rewrite (skipn_all2 HEADER) by (simpl; lia).
      reflexivity.
  - intros Hn. rewrite H1, H2. split.
    + rewrite firstn_all2 by (rewrite length_app, Hlen; simpl; lia).
      apply in_or_app. right. now left.
    + rewrite skipn_app. apply in_or_app. left.
      unfold HEADER.
      destruct n as [|[|[|[|[|n']]]]]; try lia; cbn [skipn];
        repeat ((left; reflexivity) || right).
Qed.

Lemma X9_witness :
  (slice (generate_lines sample_universities) 5 10
   = firstn 5 (entries sample_universities)
   /\ slice (generate_lines sample_universities) (-6) (-1)
      = skipn (List.length sample_universities - 5)
              (entries sample_universities))
  /\ (In (u "};") (slice (generate_lines (@nil (str * str))) 5 10)
      /\ In [] (slice (generate_lines (@nil (str * str))) (-6) (-1))).
Proof.
  split.
  - apply (proj1 (proj2 (proj2 (X9_previews_are_line_slices
                                  sample_universities)))).
    simpl. lia.
  - apply (proj2 (proj2 (proj2 (X9_previews_are_line_slices [])))).
    simpl. lia.
Defined.

End LogosExtra.

(* ================================================================== *)
(** ** scripts/generate-icons.py: further properties of the code *)
(* ================================================================== *)

Module IconsExtra.
Import GenerateIcons IconsSpec.
Local Open Scope string_scope.
Local Open Scope Z_scope.

Lemma paste_px (dst src : image) (x0 y0 : Z) (mask : image) (x y : Z) :
  im_px (paste dst src (x0, y0) mask) x y
  = if in_bounds dst x y && in_bounds src (x - x0) (y - y0)
    then blend_bands (mask_value mask (x - x0) (y - y0))
                     (im_px dst x y) (im_px src (x - x0) (y - y0))
    else im_px dst x y.
Proof. reflexivity. Qed.

Lemma fs_read_In (svg : Type) (files : list (path * file svg)) (p : path) :
  fs_read files p <> None <-> In p (map fst files).
Proof.
  induction files as [|[q f] files IH]; simpl.
  - tauto.
  - unfold path_eqb. destruct (path_eq_dec q p) as [->|Hne].
    + split; [auto | discriminate].
    + rewrite IH. tauto.
Qed.

(** X11.  A missing source leaves the earlier outputs in place: without
    the logo document the run stops at the first rendering, having only
    created the two directories; without the icon document it stops at
    the second, after the full logo has been written. *)
Theorem X11_missing_source_keeps_earlier_output :
  forall (svg : Type) (rasterize : svg -> Z -> Z -> Z -> Z -> pixel)
         (lanczos : image -> Z -> Z -> Z -> Z -> pixel)
         (ellipse_fill : Z * Z * Z * Z -> Z -> Z -> bool)
         (logo icon : svg),
    run rasterize lanczos ellipse_fill None (Some icon)
    = (Raised (FileNotFoundError LOGO_SVG),
       {| fs := [(ICON_SVG, FSvg icon)];
          log := [Makedirs IMG_DIR; Makedirs STORE_DIR] |})
    /\ run rasterize lanczos ellipse_fill (Some logo) None
       = (Raised (FileNotFoundError ICON_SVG),
          {| fs := [ (path_join IMG_DIR ["pakuni-logo.png"],
                      FPng (render rasterize logo 400 520));
                     (LOGO_SVG, FSvg logo) ];
             log := [ Makedirs IMG_DIR; Makedirs STORE_DIR;
                      Wrote (path_join IMG_DIR ["pakuni-logo.png"])
                            (render rasterize logo 400 520) ] |}).
Proof. intros. split; reflexivity. Qed.

(** X12.  After a successful run the files are exactly the two sources
    and the fourteen outputs: both temporary files have been removed,
    by the last two steps, and the sources are untouched. *)
Theorem X12_final_files :
  forall (svg : Type) (rasterize : svg -> Z -> Z -> Z -> Z -> pixel)
         (lanczos : image -> Z -> Z -> Z -> Z -> pixel)
         (ellipse_fill : Z * Z * Z * Z -> Z -> Z -> bool)
         (logo icon : svg),
    let w := snd (run rasterize lanczos ellipse_fill (Some logo) (Some icon)) in
    (forall p, fs_read (fs w) p <> None
               <-> In p (LOGO_SVG :: ICON_SVG :: OUTPUT_FILES))
    /\ List.length OUTPUT_FILES = 14%nat
    /\ fs_read (fs w) TEMP_ICON = None
    /\ fs_read (fs w) TEMP_MIPMAP = None
    /\ fs_read (fs w) LOGO_SVG = Some (FSvg logo)
    /\ fs_read (fs w) ICON_SVG = Some (FSvg icon)
    /\ fs_read (fs w) (path_join IMG_DIR ["pakuni-logo.png"])
       = Some (FPng (render rasterize logo 400 520))
    /\ fs_read (fs w) (path_join IMG_DIR ["pakuni-icon.png"])
       = Some (FPng (render rasterize icon 512 512))
    /\ skipn 27 (log w) = [Removed TEMP_ICON; Removed TEMP_MIPMAP].
Proof.
  intros svg rasterize lanczos ellipse_fill logo icon w.
  split; [|repeat split; reflexivity].
  intros p. rewrite fs_read_In.
  assert (E : map fst (fs w) = rev (ICON_SVG :: LOGO_SVG :: OUTPUT_FILES))
    by reflexivity.
  rewrite E, <- in_rev. simpl. tauto.
Qed.

(** X13.  Running the script again on the files it left gives the same
    files and the same sequence of effects: the outputs are overwritten
    with identical images and the temporary files are created and
    removed again. *)
Theorem X13_second_run_changes_nothing :
  forall (svg : Type) (rasterize : svg -> Z -> Z -> Z -> Z -> pixel)
         (lanczos : image -> Z -> Z -> Z -> Z -> pixel)
         (ellipse_fill : Z * Z * Z * Z -> Z -> Z -> bool)
         (logo icon : svg),
    let w := snd (run rasterize lanczos ellipse_fill (Some logo) (Some icon)) in
    script rasterize lanczos ellipse_fill {| fs := fs w; log := [] |}
    = (Ok tt, {| fs := fs w; log := log w |}).
Proof. intros. reflexivity. Qed.

(** *** Pixels *)

Lemma BLEND8_transparent (d s : Z) : is_byte d = true -> BLEND8 0 d s = d.
Proof.
  rewrite is_byte_spec. intros Hd. unfold BLEND8.
  replace (d * (255 - 0) + s * 0) with (d * 255) by lia.
  now apply DIV255_times_255.
Qed.

Lemma rgba_bytes_inv (p : pixel) :
  rgba_bytes p = true ->
  exists r g b a,
    p = [r; g; b; a]
    /\ is_byte r = true /\ is_byte g = true /\ is_byte b = true
    /\ is_byte a = true.
Proof.
  destruct p as [|r [|g [|b [|a [|? ?]]]]]; try discriminate.
  unfold rgba_bytes. rewrite !andb_true_iff. intros [[[Hr Hg] Hb] Ha].
  now exists r, g, b, a.
Qed.

(** The circular cut-out of any square canvas of byte pixels. *)
Lemma masked_pixel (ellipse_fill : Z * Z * Z * Z -> Z -> Z -> bool)
      (canvas : image) (size x y : Z) :
  im_width canvas = size -> im_height canvas = size ->
  (0 <=? x) && (x <? size) && (0 <=? y) && (y <? size) = true ->
  rgba_bytes (im_px canvas x y) = true ->
  im_px (paste (Image_new RGBA (size, size) CLEAR_RGBA) canvas (0, 0)
               (round_mask ellipse_fill size)) x y
  = if ellipse_fill (0, 0, size, size) x y then im_px canvas x y
    else CLEAR_RGBA.
Proof.
  intros Hw Hh Hb Hbytes. rewrite paste_px, !Z.sub_0_r.
  assert (Hd : in_bounds (Image_new RGBA (size, size) CLEAR_RGBA) x y = true)
    by exact Hb.
  assert (Hc : in_bounds canvas x y = true).
  { unfold in_bounds. now rewrite Hw, Hh. }
  rewrite Hd, Hc. cbn [andb].
  rewrite (round_mask_value ellipse_fill size x y Hb).
  change (im_px (Image_new RGBA (size, size) CLEAR_RGBA) x y)
    with CLEAR_RGBA.
  destruct (ellipse_fill (0, 0, size, size) x y).
  - now apply blend_opaque_rgba.
  - apply blend_clear_rgba.
Qed.

(** X14.  The square launcher icon of a tier has three byte bands at
    every pixel, hence no transparency.  It is white outside the pasted
    render; inside, a fully opaque pixel of the render is copied
    unchanged and a fully transparent one leaves the white
    background. *)
Theorem X14_square_tier_pixels :
  forall (svg : Type) (rasterize : svg -> Z -> Z -> Z -> Z -> pixel)
         (icon : svg) (size x y : Z),
    (forall s w h x y, rgba_bytes (rasterize s w h x y) = true) ->
    let square := tier_square rasterize icon size in
    let fg := tier_fg rasterize icon size in
    let fx := x - tier_offset size in
    let fy := y - tier_offset size in
    im_mode square = RGB
    /\ (exists r g b,
          im_px square x y = [r; g; b]
          /\ is_byte r = true /\ is_byte g = true /\ is_byte b = true)
    /\ (in_bounds square x y && in_bounds fg fx fy = false ->
        im_px square x y = WHITE_RGB)
    /\ (in_bounds square x y && in_bounds fg fx fy = true ->
        (nth 3 (im_px fg fx fy) 0 = 255 ->
         im_px square x y = firstn 3 (im_px fg fx fy))
        /\ (nth 3 (im_px fg fx fy) 0 = 0 -> im_px square x y = WHITE_RGB)).
Proof.
  intros svg rasterize icon size x y Hbytes square fg fx fy.
  assert (Hpx : im_px square x y
                = if in_bounds square x y && in_bounds fg fx fy
                  then blend_bands (nth 3 (im_px fg fx fy) 0) WHITE_RGB
                                   (im_px fg fx fy)
                  else WHITE_RGB) by reflexivity.
  destruct (rgba_bytes_inv (im_px fg fx fy)) as [r [g [b [a [E [Hr [Hg [Hb Ha]]]]]]]].
  { apply Hbytes. }
  assert (Hw : is_byte 255 = true) by reflexivity.
  split; [reflexivity|]. rewrite Hpx, E. unfold WHITE_RGB.
  cbn [blend_bands nth firstn].
  destruct (in_bounds square x y && in_bounds fg fx fy).
  - split; [|split; [discriminate|]].
    + exists (BLEND8 a 255 r), (BLEND8 a 255 g), (BLEND8 a 255 b).
      repeat split; now apply BLEND8_byte.
    + intros _. split; intros ->.
      * now rewrite !BLEND8_opaque.
      * now rewrite !BLEND8_transparent.
  - split; [|split; [reflexivity|discriminate]].
    exists 255, 255, 255. now repeat split.
Qed.

Lemma X14_witness :
  let square := tier_square sample_rasterize SAMPLE_ICON 48 in
  let fg := tier_fg sample_rasterize SAMPLE_ICON 48 in
  let fx := 24 - tier_offset 48 in
  let fy := 24 - tier_offset 48 in
  im_mode square = RGB
  /\ (exists r g b,
        im_px square 24 24 = [r; g; b]
        /\ is_byte r = true /\ is_byte g = true /\ is_byte b = true)
  /\ (in_bounds square 24 24 && in_bounds fg fx fy = false ->
      im_px square 24 24 = WHITE_RGB)
  /\ (in_bounds square 24 24 && in_bounds fg fx fy = true ->
      (nth 3 (im_px fg fx fy) 0 = 255 ->
       im_px square 24 24 = firstn 3 (im_px fg fx fy))
      /\ (nth 3 (im_px fg fx fy) 0 = 0 -> im_px square 24 24 = WHITE_RGB)).
Proof.
  apply (X14_square_tier_pixels sample_svg sample_rasterize SAMPLE_ICON
           48 24 24).
  exact sample_rasterize_bytes.
Defined.

Lemma pasted_alpha_below (a : Z) : 0 < a < 255 -> 0 <= pasted_alpha a < 255.
Proof.
  intros Ha. unfold pasted_alpha, BLEND8, DIV255.
  rewrite !Z.shiftr_div_pow2 by lia. change (2 ^ 8) with 256.
  assert (Hlo : 0 <= 255 * (255 - a) + a * a) by nia.
  assert (Hhi : 255 * (255 - a) + a * a <= 64771) by nia.
  generalize dependent (255 * (255 - a) + a * a). intros v Hlo Hhi.
  Z.div_mod_to_equations. lia.
Qed.

(** X15.  Pasting the render with itself as mask blends the alpha band
    too: where the render is partly transparent (opacity strictly
    between 0 and 255) the white canvas of the round variant ends with
    an opacity below 255, and so does the written round icon at every
    such pixel inside the ellipse. *)
Theorem X15_partial_alpha_is_not_opaque :
  forall (svg : Type) (rasterize : svg -> Z -> Z -> Z -> Z -> pixel)
         (ellipse_fill : Z * Z * Z * Z -> Z -> Z -> bool)
         (icon : svg) (size x y a : Z),
    (forall s w h x y, rgba_bytes (rasterize s w h x y) = true) ->
    let fg := tier_fg rasterize icon size in
    let canvas := tier_round_canvas rasterize icon size in
    let round := tier_round rasterize ellipse_fill icon size in
    in_bounds canvas x y
    && in_bounds fg (x - tier_offset size) (y - tier_offset size) = true ->
    nth 3 (im_px fg (x - tier_offset size) (y - tier_offset size)) 0 = a ->
    0 < a < 255 ->
    nth 3 (im_px canvas x y) 0 = pasted_alpha a
    /\ 0 <= pasted_alpha a < 255
    /\ (ellipse_fill (0, 0, size, size) x y = true ->
        nth 3 (im_px round x y) 0 = pasted_alpha a).
Proof.
  intros svg rasterize ellipse_fill icon size x y a Hbytes fg canvas round
         Hin Ha Hrange.
  set (fx := x - tier_offset size) in *. set (fy := y - tier_offset size) in *.
  assert (Hpx : im_px canvas x y
                = if in_bounds canvas x y && in_bounds fg fx fy
                  then blend_bands (nth 3 (im_px fg fx fy) 0) WHITE_RGBA
                                   (im_px fg fx fy)
                  else WHITE_RGBA) by reflexivity.
  rewrite Hin in Hpx.
  assert (Hcanvas : nth 3 (im_px canvas x y) 0 = pasted_alpha a).
  { rewrite Hpx.
    destruct (rgba_bytes_inv (im_px fg fx fy)) as [r [g [b [a' [E _]]]]].
    { apply Hbytes. }
    rewrite E in Ha |- *. cbn [nth] in Ha. subst a'.
    unfold WHITE_RGBA. cbn [blend_bands nth]. reflexivity. }
  split; [exact Hcanvas|]. split; [now apply pasted_alpha_below|].
  intros Hell. unfold round.
  rewrite (round_pixel svg rasterize ellipse_fill Hbytes icon size x y).
  - now rewrite Hell.
  - apply andb_true_iff in Hin as [Hin _]. exact Hin.
Qed.

Lemma X15_witness :
  nth 3 (im_px (tier_round_canvas sample_rasterize SAMPLE_LOGO 48) 24 24) 0
  = pasted_alpha 128
  /\ 0 <= pasted_alpha 128 < 255
  /\ (sample_ellipse (0, 0, 48, 48) 24 24 = true ->
      nth 3 (im_px (tier_round sample_rasterize sample_ellipse SAMPLE_LOGO 48)
                   24 24) 0
      = pasted_alpha 128).
Proof.
  apply (X15_partial_alpha_is_not_opaque sample_svg sample_rasterize
           sample_ellipse SAMPLE_LOGO 48 24 24 128).
  - exact sample_rasterize_bytes.
  - reflexivity.
  - reflexivity.
  - lia.
Defined.

Example pasted_alpha_128 : pasted_alpha 128 = 191.
Proof. reflexivity. Qed.

(** X16.  The 512 x 512 round icon is written from the 400 x 400 render
    pasted at (56, 56) on an opaque white canvas and cut out by the
    ellipse of the full square: transparent outside the ellipse, the
    canvas inside it, and the canvas is white outside the pasted
    render. *)
Theorem X16_round_icon_512 :
  forall (svg : Type) (rasterize : svg -> Z -> Z -> Z -> Z -> pixel)
         (lanczos : image -> Z -> Z -> Z -> Z -> pixel)
         (ellipse_fill : Z * Z * Z * Z -> Z -> Z -> bool)
         (logo icon : svg),
    (forall s w h x y, rgba_bytes (rasterize s w h x y) = true) ->
    let w := run rasterize lanczos ellipse_fill (Some logo) (Some icon) in
    let canvas := round_canvas_512 rasterize icon in
    let round := round_icon_512 rasterize ellipse_fill icon in
    filter (wrote_into IMG_DIR) (firstn 7 (log (snd w)))
    = [ Wrote (path_join IMG_DIR ["pakuni-logo.png"])
              (render rasterize logo 400 520);
        Wrote (path_join IMG_DIR ["pakuni-icon.png"])
              (render rasterize icon 512 512);
        Wrote TEMP_ICON (icon_fg rasterize icon);
        Wrote (path_join IMG_DIR ["pakuni-icon-round.png"]) round ]
    /\ (im_mode round = RGBA /\ im_width round = 512 /\ im_height round = 512)
    /\ forall x y,
         in_bounds round x y = true ->
         im_px round x y
         = (if ellipse_fill (0, 0, 512, 512) x y then im_px canvas x y
            else CLEAR_RGBA)
         /\ (in_bounds (icon_fg rasterize icon) (x - 56) (y - 56) = false ->
             im_px canvas x y = WHITE_RGBA).
Proof.
  intros svg rasterize lanczos ellipse_fill logo icon Hbytes w canvas round.
  split; [reflexivity|]. split; [repeat split|].
  intros x y Hb.
  assert (Hpx : im_px canvas x y
                = if in_bounds canvas x y
                     && in_bounds (icon_fg rasterize icon) (x - 56) (y - 56)
                  then blend_bands
                         (nth 3 (im_px (icon_fg rasterize icon)
                                       (x - 56) (y - 56)) 0)
                         WHITE_RGBA
                         (im_px (icon_fg rasterize icon) (x - 56) (y - 56))
                  else WHITE_RGBA) by reflexivity.
  split.
  - unfold round, round_icon_512. apply masked_pixel; try reflexivity.
    + exact Hb.
    + fold canvas. rewrite Hpx.
      destruct (in_bounds canvas x y
                && in_bounds (icon_fg rasterize icon) (x - 56) (y - 56)).
      * apply blend_white_rgba, Hbytes.
      * reflexivity.
  - intros Hout. rewrite Hpx, Hout. now rewrite andb_false_r.
Qed.

Lemma X16_witness :
  im_px (round_icon_512 sample_rasterize sample_ellipse SAMPLE_ICON) 3 3
  = (if sample_ellipse (0, 0, 512, 512) 3 3
     then im_px (round_canvas_512 sample_rasterize SAMPLE_ICON) 3 3
     else CLEAR_RGBA)
  /\ (in_bounds (icon_fg sample_rasterize SAMPLE_ICON) (3 - 56) (3 - 56)
      = false ->
      im_px (round_canvas_512 sample_rasterize SAMPLE_ICON) 3 3 = WHITE_RGBA).
Proof.
  apply (proj2 (proj2 (X16_round_icon_512 sample_svg sample_rasterize
                         sample_lanczos sample_ellipse SAMPLE_LOGO
                         SAMPLE_ICON sample_rasterize_bytes))).
  reflexivity.
Defined.

(** *** int(size * 0.78) *)

Lemma inner_size_checked_sound (bound : nat) :
  inner_size_checked bound = true ->
  forall n, (n <= bound)%nat ->
    inner_size_of (Z.of_nat n) = 78 * Z.of_nat n / 100.
Proof.
  unfold inner_size_checked. rewrite forallb_forall. intros Hall n Hn.
  apply Z.eqb_eq, Hall, in_seq. lia.
Qed.

Lemma inner_size_checked_4096 : inner_size_checked 4096 = true.
Proof. vm_compute. reflexivity. Qed.

(** X17.  For every size from 0 to 4096 the binary64 computation
    [int(size * 0.78)] is the exact floor of 78 * size / 100; the render
    therefore fits in the square, with the two margins differing by at
    most one pixel. *)
Theorem X17_inner_size_is_exact_floor :
  forall size : Z,
    0 <= size <= 4096 ->
    inner_size_of size = 78 * size / 100
    /\ 0 <= inner_size_of size <= size
    /\ 0 <= tier_offset size
    /\ tier_offset size + inner_size_of size <= size
    /\ 0 <= (size - inner_size_of size) - 2 * tier_offset size <= 1.
Proof.
  intros size Hsize.
  assert (E : inner_size_of size = 78 * size / 100).
  { rewrite <- (Z2Nat.id size) by lia.
    apply (inner_size_checked_sound 4096 inner_size_checked_4096). lia. }
  unfold tier_offset. rewrite E. clear E.
  split; [reflexivity|]. Z.div_mod_to_equations. lia.
Qed.

Lemma X17_witness :
  inner_size_of 1024 = 78 * 1024 / 100
  /\ 0 <= inner_size_of 1024 <= 1024
  /\ 0 <= tier_offset 1024
  /\ tier_offset 1024 + inner_size_of 1024 <= 1024
  /\ 0 <= (1024 - inner_size_of 1024) - 2 * tier_offset 1024 <= 1.
Proof. apply (X17_inner_size_is_exact_floor 1024). lia. Defined.

End IconsExtra.
